(** * Simulated bond index: a shallow embedding of [bond_index.py]

    The script prices three Treasury maturities from their yields, runs a
    monthly rebalanced fixed-weight portfolio over the price table and
    normalises the S&P 500 to the same starting capital.

    Numbers.  The script computes on binary64 floats, and its lines are
    translated twice.

    - The exact model, below: every number is an exact rational ([Qc],
      canonical fractions with Leibniz equality) and [+], [-], [*], [/],
      [abs] and [**] with an integer exponent are the exact operations.  It
      says which formulas the script computes; rounding, overflow and
      underflow are left out, and so is numpy's inf and nan: a division whose
      divisor is zero has no rational value and ends the computation with
      [ZeroDivisionError].  What holds here holds of the script up to
      rounding, and is stated as holding "in exact arithmetic".

    - The binary64 model, in [Binary64]: the same lines over Rocq's primitive
      [float], which is IEEE 754 binary64 with rounding to nearest, ties to
      even.  It tells numpy scalars, whose operations never raise, from
      plain Python floats, whose [/] and [**] raise.  A run of this model is
      a run of the script, bit for bit; it decides what survives rounding.

    A missing observation (NaN) is [None] in a series of [option Qc].

    Containers.  A Python [dict] is an association list in insertion order,
    read with [getitem]; iterating a dict walks its keys in that order.  A
    pandas [Series] is a list of labelled values; a [DataFrame] is an index
    together with its named columns, every column as long as the index.

    pandas.  The calls the script makes into pandas ([iloc], [apply],
    [resample], [mean], [last], [dropna], [loc], [pct_change], [cumprod]) are
    modelled after their documented behaviour on the data the script feeds
    them: date indexes without duplicate labels. *)

From Stdlib Require Import QArith Qcanon Qcabs Floats Sorted.
From stdpp Require Import base decidable option numbers list strings.

Local Open Scope string_scope.
Local Open Scope Qc_scope.
Local Open Scope list_scope.

(** ** Faults and the error monad *)

Inductive exn : Type :=
  | ZeroDivisionError
  | OverflowError
  | KeyError
  | IndexError.

Inductive result (A : Type) : Type :=
  | Ok (a : A)
  | Raise (e : exn).
Arguments Ok {A} a.
Arguments Raise {A} e.

Definition bind {A B} (m : result A) (k : A -> result B) : result B :=
  match m with
  | Ok a => k a
  | Raise e => Raise e
  end.

Notation "'let*' x ':=' m 'in' k" := (bind m (fun x => k))
  (at level 10, x pattern, m at level 100, k at level 200).

(** [[f x for x in l]] with a body that may fault: left to right, the first
    fault ends the evaluation. *)
Fixpoint traverse {A B} (f : A -> result B) (l : list A) : result (list B) :=
  match l with
  | [] => Ok []
  | x :: l' =>
      let* y := f x in
      let* ys := traverse f l' in
      Ok (y :: ys)
  end.

(** A [for] loop over [l] threading a state. *)
Fixpoint for_each {A S} (body : A -> S -> result S) (l : list A) (s : S)
  : result S :=
  match l with
  | [] => Ok s
  | x :: l' =>
      let* s' := body x s in
      for_each body l' s'
  end.

(** ** Arithmetic *)

(** [x / y] in exact arithmetic: a zero divisor has no quotient.  What Python
    and numpy do with one on floats is in [Binary64]. *)
Definition div (x y : Qc) : result Qc :=
  if decide (y = 0) then Raise ZeroDivisionError else Ok (x / y).

(** [x ** n] for an integer exponent [n]: a negative exponent is the
    reciprocal of the positive power, and a zero base has none. *)
Definition pow (x : Qc) (n : Z) : result Qc :=
  match n with
  | Z0 => Ok 1
  | Zpos p => Ok (x ^ Pos.to_nat p)
  | Zneg p =>
      if decide (x = 0) then Raise ZeroDivisionError
      else Ok (/ (x ^ Pos.to_nat p))
  end.

(** The builtin [sum] of a generator: start from 0 and add each term in
    turn. *)
Definition sum_of {A} (term : A -> result Qc) (l : list A) : result Qc :=
  for_each (fun x acc => let* t := term x in Ok (acc + t)) l 0.

(** [decimal d k] is the literal with digits [d] and [k] decimal places:
    [decimal 105 2] is 1.05. *)
Definition decimal (digits : Z) (places : nat) : Qc :=
  Qc_of_Z digits / Qc_of_Z (10 ^ Z.of_nat places).

(** ** Dictionaries and labelled series *)

Definition dict (K V : Type) : Type := list (K * V).

Abbreviation Series I A := (list (I * A)).

Section Dict.
Context {K : Type} `{EqDecision K} {V : Type}.

Definition keys (d : dict K V) : list K := map fst d.

Fixpoint lookup_key (k : K) (d : dict K V) : option V :=
  match d with
  | [] => None
  | (k', v) :: d' => if decide (k = k') then Some v else lookup_key k d'
  end.

(** [d[k]] *)
Definition getitem (d : dict K V) (k : K) : result V :=
  match lookup_key k d with
  | Some v => Ok v
  | None => Raise KeyError
  end.

(** [not d] *)
Definition is_empty (d : dict K V) : bool :=
  match d with
  | [] => true
  | _ :: _ => false
  end.

(** [{k: value k for k in ks}] *)
Definition dict_comp (value : K -> result V) (ks : list K)
  : result (dict K V) :=
  traverse (fun k => let* v := value k in Ok (k, v)) ks.

(** [d[k] = v]: overwrite in place, or append a new key. *)
Fixpoint setitem (d : dict K V) (k : K) (v : V) : dict K V :=
  match d with
  | [] => [(k, v)]
  | (k', v') :: d' =>
      if decide (k = k') then (k, v) :: d' else (k', v') :: setitem d' k v
  end.

(** [s.loc[labels]] on a series with distinct labels: the listed entries in
    the order of [labels]; a label the series does not have is a
    [KeyError]. *)
Definition loc (s : Series K V) (labels : list K) : result (Series K V) :=
  dict_comp (getitem s) labels.
End Dict.

(** ** Data frames *)

Record DataFrame (I A : Type) : Type := {
  index : list I;
  columns : dict string (list A)
}.
Arguments index {I A} d.
Arguments columns {I A} d.

Section Frame.
Context {I A : Type}.

(** [len(df)]: the number of rows. *)
Definition len (df : DataFrame I A) : nat := length (index df).

(** [df.iloc[i]]: row [i] as a series labelled by the column names. *)
Definition iloc (df : DataFrame I A) (i : nat) : result (dict string A) :=
  if decide (i < len df)%nat then
    traverse (fun '(col, vs) =>
                match vs !! i with
                | Some v => Ok (col, v)
                | None => Raise IndexError
                end) (columns df)
  else Raise IndexError.

(** [df.iloc[i][col]] *)
Definition cell (df : DataFrame I A) (i : nat) (col : string) : result A :=
  let* row := iloc df i in
  getitem row col.
End Frame.

(** ** STEP 3: monthly resampling and alignment *)

(** A date of the downloaded series: its month, counted from some epoch, and
    the day within the month.  A month-end label of a resampled series is the
    month alone. *)
Record Timestamp : Type := {
  month_of : nat;
  day_of : nat
}.

(** The monthly bins of [resample('M')]: every month from the earliest to the
    latest date of the index, whether or not it has data. *)
Definition month_bins (stamps : list Timestamp) : list nat :=
  match stamps with
  | [] => []
  | t :: rest =>
      let lo := foldr Nat.min (month_of t) (map month_of rest) in
      let hi := foldr Nat.max (month_of t) (map month_of rest) in
      seq lo (S (hi - lo))
  end.

(** The observations of a column that fall in month [m], NaN skipped. *)
Fixpoint observed (stamps : list Timestamp) (vs : list (option Qc)) (m : nat)
  : list Qc :=
  match stamps, vs with
  | t :: stamps', v :: vs' =>
      match v with
      | Some x =>
          if decide (month_of t = m) then x :: observed stamps' vs' m
          else observed stamps' vs' m
      | None => observed stamps' vs' m
      end
  | _, _ => []
  end.

Definition Qcsum (l : list Qc) : Qc := foldr Qcplus 0 l.

(** The mean of a bin; NaN for a bin without observations. *)
Definition mean (xs : list Qc) : option Qc :=
  match xs with
  | [] => None
  | _ :: _ => Some (Qcsum xs / Qc_of_Z (Z.of_nat (length xs)))
  end.

(** [df.resample('M').mean()]; the mean of a bin does not depend on the order
    of its observations. *)
Definition resample_mean (df : DataFrame Timestamp (option Qc))
  : DataFrame nat (option Qc) :=
  let bins := month_bins (index df) in
  {| index := bins;
     columns :=
       map (fun '(col, vs) =>
              (col, map (fun m => mean (observed (index df) vs m)) bins))
           (columns df) |}.

(** Dates in calendar order. *)
Definition date_le (t1 t2 : Timestamp) : bool :=
  (month_of t1 <? month_of t2)%nat
  || ((month_of t1 =? month_of t2)%nat && (day_of t1 <=? day_of t2)%nat).

Definition by_date {A} (a b : Timestamp * A) : Prop := date_le a.1 b.1 = true.

(** [resample] puts an index that is not in calendar order in order first, by
    a stable sort: an entry goes before the first entry that is not earlier
    than it. *)
Fixpoint insert_by_date {A} (x : Timestamp * A) (s : Series Timestamp A)
  : Series Timestamp A :=
  match s with
  | [] => [x]
  | y :: s' =>
      if date_le x.1 y.1 then x :: y :: s' else y :: insert_by_date x s'
  end.

Definition sort_index {A} (s : Series Timestamp A) : Series Timestamp A :=
  foldr insert_by_date [] s.

(** [s.resample('M').last()]: the last observation of each bin in calendar
    order, NaN skipped. *)
Definition resample_last (s : Series Timestamp (option Qc))
  : Series nat (option Qc) :=
  let sorted := sort_index s in
  map (fun m => (m, last (observed (map fst sorted) (map snd sorted) m)))
      (month_bins (map fst s)).

(** Keep the entries of [l] whose position is marked in [mask]. *)
Fixpoint select {A} (mask : list bool) (l : list A) : list A :=
  match mask, l with
  | keep :: mask', x :: l' =>
      if keep then x :: select mask' l' else select mask' l'
  | _, _ => []
  end.

(** Row [i] has a value in every column. *)
Definition complete_row {I} (df : DataFrame I (option Qc)) (i : nat) : bool :=
  forallb (fun '(_, vs) => match vs !! i with
                           | Some (Some _) => true
                           | _ => false
                           end) (columns df).

(** [df.dropna()]: the rows without a missing value. *)
Definition dropna {I} (df : DataFrame I (option Qc)) : DataFrame I (option Qc) :=
  let keep := map (complete_row df) (seq 0 (len df)) in
  {| index := select keep (index df);
     columns := map (fun '(col, vs) => (col, select keep vs)) (columns df) |}.

(** Line 46: [yields_df = yields_df.resample('M').mean().dropna()] *)
Definition resampled_yields (yields_df : DataFrame Timestamp (option Qc))
  : DataFrame nat (option Qc) :=
  dropna (resample_mean yields_df).

(** Lines 47 and 48: [sp500.resample('M').last()], then [.loc] on the index of
    the yield table. *)
Definition aligned_sp500 (sp500 : Series Timestamp (option Qc))
    (yields_index : list nat) : result (Series nat (option Qc)) :=
  loc (resample_last sp500) yields_index.

(** ** STEP 4: bond prices from yields *)

Definition bond_price (yield_percent : Qc) (duration_years : Z) : result Qc :=
  let* p := pow (1 + yield_percent / Qc_of_Z 100) duration_years in
  div (Qc_of_Z 100) p.

Definition durations : dict string Z :=
  [("1Y", 1%Z); ("5Y", 5%Z); ("10Y", 10%Z)].

(** [prices_df]: one column per yield column, each yield mapped through
    [bond_price] with the duration of its label.  Both frames share the
    index, so the column assignment needs no realignment. *)
Definition prices_df {I} (yields_df : DataFrame I Qc) : result (DataFrame I Qc) :=
  for_each
    (fun col prices_df =>
       let* ys := getitem (columns yields_df) col in
       let* ps := traverse (fun y =>
                              let* d := getitem durations col in
                              bond_price y d) ys in
       Ok {| index := index prices_df;
             columns := setitem (columns prices_df) col ps |})
    (keys (columns yields_df))
    {| index := index yields_df; columns := [] |}.

(** The discounting formula of the specification, and the duration the
    script binds to a label. *)
Definition spec_price (yield_percent : Qc) (duration_years : nat) : Qc :=
  Qc_of_Z 100 / (1 + yield_percent / Qc_of_Z 100) ^ duration_years.

Definition duration_of (col : string) : nat :=
  match lookup_key col durations with
  | Some d => Z.to_nat d
  | None => O
  end.

(** A column of the price table, by the formula. *)
Definition priced_column (c : string * list Qc) : string * list Qc :=
  (c.1, map (fun y => spec_price y (duration_of c.1)) c.2).

(** A yield table that can be priced: distinct column labels, each one of the
    three maturities, every column as long as the index, and no yield at
    which the discount factor [1 + y/100] vanishes. *)
Definition priceable_column (n : nat) (c : string * list Qc) : bool :=
  bool_decide (length c.2 = n)
  && bool_decide (c.1 ∈ keys durations)
  && forallb (fun y => bool_decide (1 + y / Qc_of_Z 100 <> 0)) c.2.

Definition priceable {I} (yields_df : DataFrame I Qc) : bool :=
  bool_decide (NoDup (keys (columns yields_df)))
  && forallb (priceable_column (len yields_df)) (columns yields_df).

(** Every series of the table is constant over the window, and every listed
    maturity is a column of the table. *)
Definition constant_series (vs : list Qc) : bool :=
  match vs with
  | [] => true
  | v :: rest => forallb (fun v' => bool_decide (v' = v)) rest
  end.

Definition constant_columns {I} (df : DataFrame I Qc) : bool :=
  forallb (fun c => constant_series c.2) (columns df).

Definition covers {I} (df : DataFrame I Qc) (bonds : list string) : bool :=
  forallb (fun b => bool_decide (b ∈ keys (columns df))) bonds.

(** ** STEP 5: the monthly rebalanced bond index *)

Definition initial_investment : Qc := Qc_of_Z 1000.

(** The three locals the loop carries from one month to the next. *)
Record state : Type := {
  value : Qc;
  portfolio_values : list Qc;
  holdings : dict string Qc
}.

(** [sum(holdings[bond] * curr[bond] for bond in holdings)]: what the
    holdings are worth at the prices of a row. *)
Definition market_value (holdings curr : dict string Qc) : result Qc :=
  sum_of (fun bond =>
            let* h := getitem holdings bond in
            let* c := getitem curr bond in
            Ok (h * c)) (keys holdings).

(** Lines 72 to 87 of iteration [i]: the revalued portfolio, the rebalanced
    holdings and the turnover. *)
Definition iteration {I} (prices : DataFrame I Qc) (weights : dict string Qc)
    (i : nat) (st : state) : result (Qc * dict string Qc * Qc) :=
  let* prev := iloc prices (i - 1) in
  let* curr := iloc prices i in
  let* holdings :=
    (if is_empty (holdings st) then
       dict_comp (fun bond =>
                    let* w := getitem weights bond in
                    let* p := getitem prev bond in
                    div (value st * w) p) (keys weights)
     else Ok (holdings st)) in
  let* value := market_value holdings curr in
  let* desired_value :=
    dict_comp (fun bond =>
                 let* w := getitem weights bond in
                 Ok (value * w)) (keys weights) in
  let* new_holdings :=
    dict_comp (fun bond =>
                 let* d := getitem desired_value bond in
                 let* c := getitem curr bond in
                 div d c) (keys weights) in
  let* turnover :=
    sum_of (fun bond =>
              let* n := getitem new_holdings bond in
              let* h := getitem holdings bond in
              let* c := getitem curr bond in
              Ok (Qcabs (n - h) * c)) (keys weights) in
  Ok (value, new_holdings, turnover).

(** One pass of the loop body: lines 72 to 93. *)
Definition loop_body {I} (prices : DataFrame I Qc) (weights : dict string Qc)
    (transaction_cost : Qc) (i : nat) (st : state) : result state :=
  let* (value, new_holdings, turnover) := iteration prices weights i st in
  let cost := turnover * transaction_cost in
  let value := value - cost in
  Ok {| value := value;
        portfolio_values := portfolio_values st ++ [value];
        holdings := new_holdings |}.

(** The locals after the first [k] passes of [for i in range(1, ...)]. *)
Definition run_upto {I} (prices : DataFrame I Qc) (weights : dict string Qc)
    (transaction_cost : Qc) (k : nat) : result state :=
  for_each (loop_body prices weights transaction_cost) (seq 1 k)
    {| value := initial_investment; portfolio_values := []; holdings := [] |}.

Definition simulate_bond_index {I} (prices : DataFrame I Qc)
    (weights : dict string Qc) (transaction_cost : Qc) : result (list Qc) :=
  let* st := run_upto prices weights transaction_cost (len prices - 1) in
  Ok (portfolio_values st).

(** The default of the [transaction_cost] parameter; the embedding always
    passes the rate explicitly. *)
Definition default_transaction_cost : Qc := decimal 1 3.

Definition weights_original : dict string Qc :=
  [("1Y", decimal 3 1); ("5Y", decimal 4 1); ("10Y", decimal 3 1)].

Definition weights_adjusted : dict string Qc :=
  [("1Y", decimal 5 1); ("5Y", decimal 3 1); ("10Y", decimal 2 1)].

(** [sum(weights[b] for b in weights)] *)
Definition total_weight (weights : dict string Qc) : Qc :=
  Qcsum (map (fun b => default 0 (lookup_key b weights)) (keys weights)).

(** ** STEP 6: the benchmark index *)

(** [s.pct_change()] on a series without NaN: each value over the one before
    it, minus one; the first entry has nothing before it and is NaN. *)
Fixpoint pct_change_from {I} (before : Qc) (s : Series I Qc)
  : result (Series I (option Qc)) :=
  match s with
  | [] => Ok []
  | (t, p) :: s' =>
      let* ratio := div p before in
      let* rest := pct_change_from p s' in
      Ok ((t, Some (ratio - 1)) :: rest)
  end.

Definition pct_change {I} (s : Series I Qc) : result (Series I (option Qc)) :=
  match s with
  | [] => Ok []
  | (t, p) :: s' =>
      let* rest := pct_change_from p s' in
      Ok ((t, None) :: rest)
  end.

(** [s.dropna()] on a series. *)
Fixpoint dropna_series {I} (s : Series I (option Qc)) : Series I Qc :=
  match s with
  | [] => []
  | (t, Some x) :: s' => (t, x) :: dropna_series s'
  | (t, None) :: s' => dropna_series s'
  end.

(** [s.cumprod()]: the running product. *)
Fixpoint cumprod_from {I} (acc : Qc) (s : Series I Qc) : Series I Qc :=
  match s with
  | [] => []
  | (t, x) :: s' => (t, acc * x) :: cumprod_from (acc * x) s'
  end.

Definition cumprod {I} (s : Series I Qc) : Series I Qc :=
  match s with
  | [] => []
  | (t, x) :: s' => (t, x) :: cumprod_from x s'
  end.

(** Line 108 *)
Definition sp500_returns {I} (sp500 : Series I Qc) : result (Series I Qc) :=
  let* changes := pct_change sp500 in
  Ok (dropna_series changes).

(** Lines 108 to 110; [prices_index] is [prices_df.index]. *)
Definition sp500_index {I} `{EqDecision I} (sp500 : Series I Qc)
    (prices_index : list I) : result (Series I Qc) :=
  let* sp500_returns := sp500_returns sp500 in
  let growth := map (fun '(t, r) => (t, 1 + r)) sp500_returns in
  let sp500_index :=
    map (fun '(t, g) => (t, g * initial_investment)) (cumprod growth) in
  loc sp500_index (tail prices_index).

(** ** Tables that can be simulated *)

(** Every row of the table can be read and prices each listed maturity at a
    nonzero value. *)
Definition nonzero_row (row : dict string Qc) (bonds : list string) : bool :=
  forallb (fun b => match getitem row b with
                    | Ok p => bool_decide (p <> 0)
                    | Raise _ => false
                    end) bonds.

Definition priced {I} (prices : DataFrame I Qc) (bonds : list string) : bool :=
  forallb (fun i => match iloc prices i with
                    | Ok row => nonzero_row row bonds
                    | Raise _ => false
                    end) (seq 0 (len prices)).

(** ** The recurrence of the specification

    Written from the words of the specification, on total functions: a price
    per row and maturity, a weight per maturity, the units held per maturity. *)

Section Recurrence.
Variable maturities : list string.
Variable weight : string -> Qc.
Variable rate : Qc.
Variable price : nat -> string -> Qc.

Definition over_maturities (f : string -> Qc) : Qc :=
  Qcsum (map f maturities).

Definition spec_initial_units (initial_capital : Qc) (b : string) : Qc :=
  (initial_capital * weight b) / price 0 b.

Definition spec_value (units : string -> Qc) (i : nat) : Qc :=
  over_maturities (fun b => units b * price i b).

Definition spec_desired_units (units : string -> Qc) (i : nat) (b : string)
  : Qc :=
  (spec_value units i * weight b) / price i b.

Definition spec_turnover (units : string -> Qc) (i : nat) : Qc :=
  over_maturities
    (fun b => Qcabs (spec_desired_units units i b - units b) * price i b).

Definition spec_cost (units : string -> Qc) (i : nat) : Qc :=
  rate * spec_turnover units i.

Definition spec_reported (units : string -> Qc) (i : nat) : Qc :=
  spec_value units i - spec_cost units i.

(** The reported values of rows [i], [i+1], ..., [i+count-1]. *)
Fixpoint spec_values (units : string -> Qc) (i count : nat) : list Qc :=
  match count with
  | O => []
  | S count' =>
      spec_reported units i
        :: spec_values (spec_desired_units units i) (S i) count'
  end.

Definition spec_portfolio (initial_capital : Qc) (n : nat) : list Qc :=
  spec_values (spec_initial_units initial_capital) 1 (n - 1).

(** The units held once row [k] has been processed. *)
Fixpoint spec_units (initial_capital : Qc) (k : nat) : string -> Qc :=
  match k with
  | O => spec_initial_units initial_capital
  | S k' => spec_desired_units (spec_units initial_capital k') (S k')
  end.
End Recurrence.

(** The total views of a weight mapping and of a price table. *)
Definition weight_of (weights : dict string Qc) (b : string) : Qc :=
  default 0 (lookup_key b weights).

Definition price_of {I} (prices : DataFrame I Qc) (i : nat) (b : string) : Qc :=
  match cell prices i b with
  | Ok p => p
  | Raise _ => 0
  end.

(** The benchmark of the specification: the return of period [j] and the
    capital compounded over the periods 1 to [k]. *)
Definition Qcprod (l : list Qc) : Qc := foldr Qcmult 1 l.

Definition spec_return (p : nat -> Qc) (j : nat) : Qc :=
  p j / p (j - 1)%nat - 1.

Definition spec_benchmark (initial_capital : Qc) (p : nat -> Qc) (k : nat) : Qc :=
  initial_capital * Qcprod (map (fun j => 1 + spec_return p j) (seq 1 k)).

(** The value a series holds at position [j], and the period returns of a
    series that follows the value [before]. *)
Definition value_at {I} (s : Series I Qc) (j : nat) : Qc :=
  default 0 (snd <$> s !! j).

Fixpoint returns_from {I} (before : Qc) (s : Series I Qc) : Series I Qc :=
  match s with
  | [] => []
  | (t, p) :: s' => (t, p / before - 1) :: returns_from p s'
  end.

(** The benchmark series the script ends with, when nothing faults. *)
Definition benchmark_of {I} (sp500 : Series I Qc) : Series I Qc :=
  match sp500 with
  | [] => []
  | (t, p) :: rest =>
      map (fun '(t, g) => (t, g * initial_investment))
          (cumprod (map (fun '(t, r) => (t, 1 + r)) (returns_from p rest)))
  end.

(** ** Dictionaries built from a function, and what the loop holds *)

Definition tabulate {K V} (g : K -> V) (ks : list K) : dict K V :=
  map (fun k => (k, g k)) ks.

(** What the loop holds on entering pass [i], as units per maturity: either
    nothing was bought yet and [u] is what line 77 is about to buy at the
    previous row, or the dictionary of the locals lists [u]. *)
Inductive holds {I} (prices : DataFrame I Qc) (weights : dict string Qc)
    (st : state) (i : nat) (u : string -> Qc) : Prop :=
  | holds_fresh :
      holdings st = [] ->
      (forall b, b ∈ keys weights ->
         u b = (value st * weight_of weights b) / price_of prices (i - 1) b) ->
      holds prices weights st i u
  | holds_kept :
      holdings st = tabulate u (keys weights) -> keys weights <> [] ->
      holds prices weights st i u.

(** ** Decidable equality, used to evaluate runs on concrete tables *)

Global Instance exn_eq_dec : EqDecision exn.
Proof. solve_decision. Defined.
Global Instance result_eq_dec {A} `{EqDecision A} : EqDecision (result A).
Proof. solve_decision. Defined.
Global Instance state_eq_dec : EqDecision state.
Proof. solve_decision. Defined.
Global Instance DataFrame_eq_dec {I A} `{EqDecision I, EqDecision A} :
  EqDecision (DataFrame I A).
Proof. solve_decision. Defined.

Ltac evaluate :=
  first [ apply (bool_decide_eq_true_1 _); vm_compute; reflexivity
        | apply (bool_decide_eq_false_1 _); vm_compute; reflexivity ].

(** ** The tables of the examples *)

(** The table [[100,100,100],[110,105,95]] over the columns A, B, C. *)
Definition two_month_prices : DataFrame nat Qc :=
  {| index := [0; 1]%nat;
     columns := [("A", [Qc_of_Z 100; Qc_of_Z 110]);
                 ("B", [Qc_of_Z 100; Qc_of_Z 105]);
                 ("C", [Qc_of_Z 100; Qc_of_Z 95])] |}.

Definition half_three_two : dict string Qc :=
  [("A", decimal 5 1); ("B", decimal 3 1); ("C", decimal 2 1)].

(** A single observation, priced at zero, with a weight on it. *)
Definition one_zero_row : DataFrame nat Qc :=
  {| index := [0]%nat; columns := [("A", [0])] |}.

(** One maturity priced at 100 in both months, carrying a weight of 2. *)
Definition flat_prices : DataFrame nat Qc :=
  {| index := [0; 1]%nat; columns := [("A", [Qc_of_Z 100; Qc_of_Z 100])] |}.

Definition double_weight : dict string Qc := [("A", Qc_of_Z 2)].

(** The three maturities priced at 297, 298 and 299 in both months. *)
Definition unchanged_prices : DataFrame nat Qc :=
  {| index := [0; 1]%nat;
     columns := [("1Y", [Qc_of_Z 297; Qc_of_Z 297]);
                 ("5Y", [Qc_of_Z 298; Qc_of_Z 298]);
                 ("10Y", [Qc_of_Z 299; Qc_of_Z 299])] |}.

(** Three months of unchanged yields: 25, 0 and 100 percent. *)
Definition steady_yields : DataFrame nat Qc :=
  {| index := [0; 1; 2]%nat;
     columns := [("1Y", [Qc_of_Z 25; Qc_of_Z 25; Qc_of_Z 25]);
                 ("5Y", [0; 0; 0]);
                 ("10Y", [Qc_of_Z 100; Qc_of_Z 100; Qc_of_Z 100])] |}.

(** Three months of unchanged yields: 2.86, 5.95 and 4.5 percent. *)
Definition level_yields : DataFrame nat Qc :=
  {| index := [0; 1; 2]%nat;
     columns := [("1Y", [decimal 286 2; decimal 286 2; decimal 286 2]);
                 ("5Y", [decimal 595 2; decimal 595 2; decimal 595 2]);
                 ("10Y", [decimal 45 1; decimal 45 1; decimal 45 1])] |}.

(** Three month-end closes of the benchmark: 100, 110, 99. *)
Definition three_closes : Series nat Qc :=
  [(0%nat, Qc_of_Z 100); (1%nat, Qc_of_Z 110); (2%nat, Qc_of_Z 99)].

(** Two yield series with misaligned months: the one-year series is observed
    in months 0 and 1, the five-year series in months 1 and 2; and daily
    benchmark closes over the three months. *)
Definition misaligned_yields : DataFrame Timestamp (option Qc) :=
  {| index := [ {| month_of := 0; day_of := 1 |};
                {| month_of := 0; day_of := 15 |};
                {| month_of := 1; day_of := 1 |};
                {| month_of := 2; day_of := 1 |} ];
     columns := [("1Y", [Some (Qc_of_Z 2); Some (Qc_of_Z 4);
                          Some (Qc_of_Z 3); None]);
                 ("5Y", [None; None; Some (Qc_of_Z 5); Some (Qc_of_Z 6)])] |}.

Definition daily_closes : Series Timestamp (option Qc) :=
  [ ({| month_of := 0; day_of := 31 |}, Some (Qc_of_Z 100));
    ({| month_of := 1; day_of := 30 |}, Some (Qc_of_Z 110));
    ({| month_of := 1; day_of := 31 |}, Some (Qc_of_Z 120));
    ({| month_of := 2; day_of := 28 |}, Some (Qc_of_Z 130)) ].

(** The same closes, the two of month 1 listed latest first. *)
Definition unsorted_closes : Series Timestamp (option Qc) :=
  [ ({| month_of := 0; day_of := 31 |}, Some (Qc_of_Z 100));
    ({| month_of := 1; day_of := 31 |}, Some (Qc_of_Z 120));
    ({| month_of := 1; day_of := 30 |}, Some (Qc_of_Z 110));
    ({| month_of := 2; day_of := 28 |}, Some (Qc_of_Z 130)) ].

(** ** The rest of the script *)

(** Lines 102 and 103: the two strategies, at the default cost rate. *)
Definition original_index {I} (prices : DataFrame I Qc) : result (list Qc) :=
  simulate_bond_index prices weights_original default_transaction_cost.

Definition adjusted_index {I} (prices : DataFrame I Qc) : result (list Qc) :=
  simulate_bond_index prices weights_adjusted default_transaction_cost.

(** The invariant of a pandas frame: every column is as long as the index. *)
Definition well_formed {I A} (df : DataFrame I A) : bool :=
  forallb (fun c => bool_decide (length c.2 = len df)) (columns df).

(** Every row prices each listed maturity at a positive value. *)
Definition positive_row (row : dict string Qc) (bonds : list string) : bool :=
  forallb (fun b => match getitem row b with
                    | Ok p => bool_decide (0 < p)
                    | Raise _ => false
                    end) bonds.

Definition positively_priced {I} (prices : DataFrame I Qc)
    (bonds : list string) : bool :=
  forallb (fun i => match iloc prices i with
                    | Ok row => positive_row row bonds
                    | Raise _ => false
                    end) (seq 0 (len prices)).

(** Three months of prices for the three maturities of the script. *)
Definition three_month_prices : DataFrame nat Qc :=
  {| index := [0; 1; 2]%nat;
     columns := [("1Y", [Qc_of_Z 98; Qc_of_Z 99; Qc_of_Z 97]);
                 ("5Y", [Qc_of_Z 90; Qc_of_Z 92; Qc_of_Z 91]);
                 ("10Y", [Qc_of_Z 80; Qc_of_Z 78; Qc_of_Z 82])] |}.

(** The worked example under string labels, with a fourth maturity that no
    strategy weights. *)
Definition labelled_wide_prices : DataFrame string Qc :=
  {| index := ["2020-01"; "2020-02"];
     columns := [("A", [Qc_of_Z 100; Qc_of_Z 110]);
                 ("30Y", [Qc_of_Z 80; Qc_of_Z 0]);
                 ("B", [Qc_of_Z 100; Qc_of_Z 105]);
                 ("C", [Qc_of_Z 100; Qc_of_Z 95])] |}.

(** A list read in increasing order. *)
Definition increasing (l : list nat) : Prop :=
  forall i j a b, (i < j)%nat -> l !! i = Some a -> l !! j = Some b ->
    (a < b)%nat.

(** * The same code on binary64

    The definitions above say which formulas the script computes.  The script
    itself runs them on IEEE 754 binary64 numbers: every operation rounds to
    the nearest representable value, ties to even.  This module translates the
    same lines over Rocq's primitive [float], which is that format with that
    rounding, so that a run of the model is, bit for bit, a run of the script.

    Two kinds of number meet in the script.  A pandas cell read with
    [row[label]] is a numpy scalar: its [+], [-], [*], [/] and [abs] never
    raise, a zero divisor gives [inf] or [nan].  The yields reach [bond_price]
    through [Series.apply], which hands the function plain Python floats:
    there [/] raises [ZeroDivisionError] on a zero divisor and [**] raises
    [OverflowError] when the power is too large. *)

Module Binary64.

(** [float(n)] for a Python [int]: the nearest binary64, ties to even, and
    [OverflowError] from 2^1024 - 2^970 on, where that would be infinite. *)
Definition float_of_int (n : Z) : result float :=
  if decide (Z.abs n < 2 ^ 1024 - 2 ^ 970)%Z
  then Ok (SF2Prim (binary_normalize prec emax n 0 false))
  else Raise OverflowError.

(** [x / y] on Python floats. *)
Definition truediv (x y : float) : result float :=
  if (y =? 0)%float then Raise ZeroDivisionError else Ok (x / y)%float.

Section Libm.
(** The C library's [pow], which Python calls once the special cases are
    sorted out: on a finite base above 0 other than 1 and a finite exponent
    other than 0.  Its rounding is the library's own affair, so it is a
    parameter here. *)
Variable libm_pow : float -> float -> float.

(** [v ** n] for a Python float [v] and a Python int [n]: the exponent is
    converted first; then 0 as exponent, nan, the infinities, 0 and 1 as base
    are answered without the library; a negative base is raised in absolute
    value and the sign restored for an odd exponent; an infinite result of
    the library is an [OverflowError], a result that underflows is 0. *)
Definition float_pow (v : float) (n : Z) : result float :=
  let* w := float_of_int n in
  let odd := Z.odd n && (Z.abs n <? 2 ^ 53)%Z in
  if decide (n = 0)%Z then Ok 1%float
  else if is_nan v then Ok v
  else if is_infinity v then
    Ok (if decide (0 < n)%Z
        then (if odd then v else abs v)
        else (if odd && (v <? 0)%float then (-0)%float else 0%float))
  else if (v =? 0)%float then
    if decide (n < 0)%Z then Raise ZeroDivisionError
    else Ok (if odd then v else 0%float)
  else
    let negate := (v <? 0)%float && odd in
    let iv := abs v in
    if (iv =? 1)%float then Ok (if negate then (-1)%float else 1%float)
    else
      let ix := libm_pow iv w in
      if is_infinity ix then Raise OverflowError
      else Ok (if negate then (- ix)%float else ix).

(** Lines 54 and 55 on Python floats: [100 / ((1 + y / 100) ** d)]. *)
Definition bond_price (yield_percent : float) (duration_years : Z)
  : result float :=
  let* r := truediv yield_percent 100 in
  let* p := float_pow (1 + r)%float duration_years in
  truediv 100 p.

(** Lines 58 to 61, as in [prices_df] above. *)
Definition prices_df {I} (yields_df : DataFrame I float)
  : result (DataFrame I float) :=
  for_each
    (fun col prices_df =>
       let* ys := getitem (columns yields_df) col in
       let* ps := traverse (fun y =>
                              let* d := getitem durations col in
                              bond_price y d) ys in
       Ok {| index := index prices_df;
             columns := setitem (columns prices_df) col ps |})
    (keys (columns yields_df))
    {| index := index yields_df; columns := [] |}.
End Libm.

(** ** The loop on numpy scalars *)

Definition initial_investment : float := 1000%float.

Record state : Type := {
  value : float;
  portfolio_values : list float;
  holdings : dict string float
}.

(** The builtin [sum] of a generator of numpy scalars: start from 0 and add
    each term in turn. *)
Definition sum_of {A} (term : A -> result float) (l : list A) : result float :=
  for_each (fun x acc => let* t := term x in Ok (acc + t)%float) l 0%float.

Definition market_value (holdings curr : dict string float) : result float :=
  sum_of (fun bond =>
            let* h := getitem holdings bond in
            let* c := getitem curr bond in
            Ok (h * c)%float) (keys holdings).

(** Lines 72 to 87 of iteration [i]. *)
Definition iteration {I} (prices : DataFrame I float)
    (weights : dict string float) (i : nat) (st : state)
  : result (float * dict string float * float) :=
  let* prev := iloc prices (i - 1) in
  let* curr := iloc prices i in
  let* holdings :=
    (if is_empty (holdings st) then
       dict_comp (fun bond =>
                    let* w := getitem weights bond in
                    let* p := getitem prev bond in
                    Ok (value st * w / p)%float) (keys weights)
     else Ok (holdings st)) in
  let* value := market_value holdings curr in
  let* desired_value :=
    dict_comp (fun bond =>
                 let* w := getitem weights bond in
                 Ok (value * w)%float) (keys weights) in
  let* new_holdings :=
    dict_comp (fun bond =>
                 let* d := getitem desired_value bond in
                 let* c := getitem curr bond in
                 Ok (d / c)%float) (keys weights) in
  let* turnover :=
    sum_of (fun bond =>
              let* n := getitem new_holdings bond in
              let* h := getitem holdings bond in
              let* c := getitem curr bond in
              Ok (abs (n - h) * c)%float) (keys weights) in
  Ok (value, new_holdings, turnover).

(** One pass of the loop body: lines 72 to 93. *)
Definition loop_body {I} (prices : DataFrame I float)
    (weights : dict string float) (transaction_cost : float) (i : nat)
    (st : state) : result state :=
  let* (value, new_holdings, turnover) := iteration prices weights i st in
  let cost := (turnover * transaction_cost)%float in
  let value := (value - cost)%float in
  Ok {| value := value;
        portfolio_values := portfolio_values st ++ [value];
        holdings := new_holdings |}.

Definition run_upto {I} (prices : DataFrame I float)
    (weights : dict string float) (transaction_cost : float) (k : nat)
  : result state :=
  for_each (loop_body prices weights transaction_cost) (seq 1 k)
    {| value := initial_investment; portfolio_values := []; holdings := [] |}.

Definition simulate_bond_index {I} (prices : DataFrame I float)
    (weights : dict string float) (transaction_cost : float)
  : result (list float) :=
  let* st := run_upto prices weights transaction_cost (len prices - 1) in
  Ok (portfolio_values st).

(** ** The recurrence, rounded

    The recurrence of the specification with every operation rounded to
    binary64, in the order in which the loop performs them: a sum adds its
    terms from the left, starting from 0. *)

Section Recurrence.
Variable maturities : list string.
Variable weight : string -> float.
Variable rate : float.
Variable price : nat -> string -> float.

Definition over_maturities (f : string -> float) : float :=
  fold_left (fun acc b => (acc + f b)%float) maturities 0%float.

Definition spec_initial_units (initial_capital : float) (b : string) : float :=
  (initial_capital * weight b / price 0 b)%float.

Definition spec_value (units : string -> float) (i : nat) : float :=
  over_maturities (fun b => (units b * price i b)%float).

Definition spec_desired_units (units : string -> float) (i : nat)
    (b : string) : float :=
  (spec_value units i * weight b / price i b)%float.

Definition spec_turnover (units : string -> float) (i : nat) : float :=
  over_maturities
    (fun b => (abs (spec_desired_units units i b - units b) * price i b)%float).

Definition spec_reported (units : string -> float) (i : nat) : float :=
  (spec_value units i - spec_turnover units i * rate)%float.

Fixpoint spec_values (units : string -> float) (i count : nat) : list float :=
  match count with
  | O => []
  | S count' =>
      spec_reported units i
        :: spec_values (spec_desired_units units i) (S i) count'
  end.

Definition spec_portfolio (initial_capital : float) (n : nat) : list float :=
  spec_values (spec_initial_units initial_capital) 1 (n - 1).

(** The units held once row [k] has been processed. *)
Fixpoint spec_units (initial_capital : float) (k : nat) : string -> float :=
  match k with
  | O => spec_initial_units initial_capital
  | S k' => spec_desired_units (spec_units initial_capital k') (S k')
  end.
End Recurrence.

Definition weight_of (weights : dict string float) (b : string) : float :=
  default 0%float (lookup_key b weights).

Definition price_of {I} (prices : DataFrame I float) (i : nat) (b : string)
  : float :=
  match cell prices i b with
  | Ok p => p
  | Raise _ => 0%float
  end.

(** Every row of the table can be read and lists each maturity, whatever its
    price. *)
Definition listed_row (row : dict string float) (bonds : list string) : bool :=
  forallb (fun b => match getitem row b with
                    | Ok _ => true
                    | Raise _ => false
                    end) bonds.

Definition listed {I} (prices : DataFrame I float) (bonds : list string)
  : bool :=
  forallb (fun i => match iloc prices i with
                    | Ok row => listed_row row bonds
                    | Raise _ => false
                    end) (seq 0 (len prices)).

(** What the loop holds on entering pass [i], as for the exact model. *)
Inductive holds {I} (prices : DataFrame I float) (weights : dict string float)
    (st : state) (i : nat) (u : string -> float) : Prop :=
  | holds_fresh :
      holdings st = [] ->
      (forall b, b ∈ keys weights ->
         u b = (value st * weight_of weights b / price_of prices (i - 1) b)%float) ->
      holds prices weights st i u
  | holds_kept :
      holdings st = tabulate u (keys weights) -> keys weights <> [] ->
      holds prices weights st i u.

(** Every series of the table is constant over the window: the same binary64
    value in every row. *)
Definition constant_series (vs : list float) : bool :=
  match vs with
  | [] => true
  | v :: rest => forallb (fun v' => Leibniz.eqb v' v) rest
  end.

Definition constant_columns {I} (df : DataFrame I float) : bool :=
  forallb (fun c => constant_series c.2) (columns df).

(** A computation that can only fail to find a label or a row. *)
Definition only_lookup_faults {A} (r : result A) : Prop :=
  forall e, r = Raise e -> e = KeyError \/ e = IndexError.

(** ** A correctly rounded power

    To run [bond_price] on an example the C library's [pow] has to be some
    function.  This one returns the binary64 nearest to the exact power of a
    finite base above 0 for an exponent that is a whole number, which is what
    [**] passes for an [int]; glibc's [pow] errs by little more than half an
    ulp, so it returns the same value except where the exact power lies very
    close to the middle of two neighbours. *)

(** The whole number a float is, if it is one. *)
Definition whole (w : float) : option Z :=
  match Prim2SF w with
  | S754_zero _ => Some 0%Z
  | S754_finite s m e =>
      let z := (if s then Z.neg m else Z.pos m) in
      match e with
      | Z0 => Some z
      | Zpos _ => Some (z * 2 ^ e)%Z
      | Zneg k =>
          if decide (Z.pos m mod 2 ^ Z.pos k = 0)%Z
          then Some (z / 2 ^ Z.pos k)%Z else None
      end
  | _ => None
  end.

Definition correctly_rounded_pow (x w : float) : float :=
  match Prim2SF x, whole w with
  | S754_finite false m e, Some (Zpos n) =>
      SF2Prim (binary_normalize prec emax (Z.pos m ^ Z.pos n)
                 (e * Z.pos n) false)
  | S754_finite false m e, Some (Zneg n) =>
      let '(q, e', l) :=
        SFdiv_core_binary prec emax 1 0 (Z.pos m ^ Z.pos n) (e * Z.pos n) in
      SF2Prim (binary_round_aux prec emax false q e' l)
  | S754_finite false _ _, Some Z0 => 1%float
  | _, _ => nan
  end.

(** ** The tables of the examples, as floats *)

(** The table [[100,100,100],[110,105,95]] over the columns A, B, C, and the
    weights 0.5, 0.3, 0.2. *)
Definition two_month_prices : DataFrame nat float :=
  {| index := [0; 1]%nat;
     columns := [("A", [100; 110]%float);
                 ("B", [100; 105]%float);
                 ("C", [100; 95]%float)] |}.

Definition half_three_two : dict string float :=
  [("A", 0.5%float); ("B", 0.3%float); ("C", 0.2%float)].

Definition weights_original : dict string float :=
  [("1Y", 0.3%float); ("5Y", 0.4%float); ("10Y", 0.3%float)].

Definition weights_adjusted : dict string float :=
  [("1Y", 0.5%float); ("5Y", 0.3%float); ("10Y", 0.2%float)].

Definition default_transaction_cost : float := 0.001%float.

(** The three maturities priced at 297, 298 and 299 in both months. *)
Definition unchanged_prices : DataFrame nat float :=
  {| index := [0; 1]%nat;
     columns := [("1Y", [297; 297]%float);
                 ("5Y", [298; 298]%float);
                 ("10Y", [299; 299]%float)] |}.

(** Three months of unchanged yields: 2.86, 5.95 and 4.5 percent. *)
Definition steady_yields : DataFrame nat float :=
  {| index := [0; 1; 2]%nat;
     columns := [("1Y", [2.86; 2.86; 2.86]%float);
                 ("5Y", [5.95; 5.95; 5.95]%float);
                 ("10Y", [4.5; 4.5; 4.5]%float)] |}.

(** One maturity priced at zero, then at 100; and at -100 in both months. *)
Definition zero_then_par : DataFrame nat float :=
  {| index := [0; 1]%nat; columns := [("A", [0; 100]%float)] |}.

Definition negative_prices : DataFrame nat float :=
  {| index := [0; 1]%nat; columns := [("A", [-100; -100]%float)] |}.

End Binary64.


(** * Properties *)

(** ** The error monad and its loops *)

Lemma bind_Ok {A B} (m : result A) (k : A -> result B) (b : B) :
  bind m k = Ok b -> exists a, m = Ok a /\ k a = Ok b.
Proof. destruct m as [a|e]; simpl; [eauto | discriminate]. Qed.

Lemma traverse_tabulate {A B} (f : A -> result B) (g : A -> B) (l : list A) :
  (forall x, x ∈ l -> f x = Ok (g x)) -> traverse f l = Ok (map g l).
Proof.
  induction l as [|x l IH]; intros Hf; simpl; [done|].
  rewrite Hf by left. simpl. rewrite IH; [done|].
  intros y Hy. apply Hf. by right.
Qed.

Lemma for_each_app {A S} (body : A -> S -> result S) (l1 l2 : list A) (s : S) :
  for_each body (l1 ++ l2) s = let* s' := for_each body l1 s in for_each body l2 s'.
Proof.
  revert s. induction l1 as [|x l1 IH]; intros s; simpl; [done|].
  destruct (body x s); simpl; auto.
Qed.

Lemma sum_of_from {A} (term : A -> result Qc) (t : A -> Qc) (l : list A) (a : Qc) :
  (forall x, x ∈ l -> term x = Ok (t x)) ->
  for_each (fun x acc => let* y := term x in Ok (acc + y)) l a
  = Ok (a + Qcsum (map t l)).
Proof.
  revert a. induction l as [|x l IH]; intros a Ht; simpl.
  - f_equal. ring.
  - rewrite Ht by left. simpl. rewrite IH.
    + f_equal. ring.
    + intros y Hy. apply Ht. by right.
Qed.

Lemma sum_of_total {A} (term : A -> result Qc) (t : A -> Qc) (l : list A) :
  (forall x, x ∈ l -> term x = Ok (t x)) ->
  sum_of term l = Ok (Qcsum (map t l)).
Proof.
  intros Ht. unfold sum_of. rewrite (sum_of_from term t) by done.
  f_equal. ring.
Qed.

(** ** Dictionaries built from a function *)

Section DictFacts.
Context {K : Type} `{EqDecision K} {V : Type}.
Implicit Types (d : dict K V) (g : K -> V) (ks : list K).

Lemma keys_tabulate g ks : keys (tabulate g ks) = ks.
Proof.
  unfold keys, tabulate. rewrite map_map. simpl. apply map_id.
Qed.

Lemma lookup_tabulate g ks k :
  k ∈ ks -> lookup_key k (tabulate g ks) = Some (g k).
Proof.
  induction ks as [|k' ks IH]; intros Hk; [by apply elem_of_nil in Hk|].
  simpl. destruct (decide (k = k')) as [->|Hne]; [done|].
  apply elem_of_cons in Hk as [?|Hk]; [done|]. auto.
Qed.

Lemma getitem_tabulate g ks k :
  k ∈ ks -> getitem (tabulate g ks) k = Ok (g k).
Proof. intros Hk. unfold getitem. by rewrite lookup_tabulate. Qed.

Lemma dict_comp_tabulate (value : K -> result V) g ks :
  (forall k, k ∈ ks -> value k = Ok (g k)) ->
  dict_comp value ks = Ok (tabulate g ks).
Proof.
  intros Hv. unfold dict_comp, tabulate.
  apply traverse_tabulate. intros k Hk. by rewrite Hv.
Qed.

Lemma lookup_key_is_Some d k : k ∈ keys d -> is_Some (lookup_key k d).
Proof.
  induction d as [|[k' v] d IH]; simpl; intros Hk.
  - by apply elem_of_nil in Hk.
  - destruct (decide (k = k')); [by eexists|].
    apply elem_of_cons in Hk as [?|Hk]; [done|]. auto.
Qed.

End DictFacts.

Lemma getitem_weight (weights : dict string Qc) (b : string) :
  b ∈ keys weights -> getitem weights b = Ok (weight_of weights b).
Proof.
  intros Hb. unfold getitem, weight_of.
  by destruct (lookup_key_is_Some weights b Hb) as [w ->].
Qed.

(** ** Reading a priced table *)

Section Priced.
Context {I : Type}.
Variable prices : DataFrame I Qc.
Variable bonds : list string.
Hypothesis Hpriced : priced prices bonds = true.

Lemma priced_row (i : nat) :
  (i < len prices)%nat ->
  exists row, iloc prices i = Ok row /\
    forall b, b ∈ bonds ->
      getitem row b = Ok (price_of prices i b) /\ price_of prices i b <> 0.
Proof.
  intros Hi. unfold priced in Hpriced.
  rewrite forallb_forall in Hpriced.
  specialize (Hpriced i). rewrite in_seq in Hpriced.
  specialize (Hpriced ltac:(lia)).
  destruct (iloc prices i) as [row|e] eqn:Hrow; [|done].
  exists row. split; [done|]. intros b Hb.
  unfold nonzero_row in Hpriced. rewrite forallb_forall in Hpriced.
  apply list_elem_of_In in Hb. specialize (Hpriced b Hb).
  unfold price_of, cell. rewrite Hrow. simpl.
  destruct (getitem row b) as [p|e]; [|done].
  split; [done|]. by apply bool_decide_eq_true_1 in Hpriced.
Qed.
End Priced.

Lemma div_nonzero (x y : Qc) : y <> 0 -> div x y = Ok (x / y).
Proof. intros Hy. unfold div. by destruct (decide (y = 0)). Qed.

(** ** One pass of the loop against the recurrence *)

Section Simulation.
Context {I : Type}.
Variable prices : DataFrame I Qc.
Variable weights : dict string Qc.
Variable transaction_cost : Qc.

Abbreviation bonds := (keys weights).
Abbreviation W := (weight_of weights).
Abbreviation P := (price_of prices).

Abbreviation holds := (holds prices weights).
Abbreviation turnover_of := (spec_turnover bonds W P).

Hypothesis Hpriced : priced prices bonds = true.

Lemma iteration_spec (i : nat) (st : state) (u : string -> Qc) :
  (1 <= i)%nat -> (i < len prices)%nat -> holds st i u ->
  iteration prices weights i st
  = Ok (spec_value bonds P u i,
        tabulate (spec_desired_units bonds W P u i) bonds,
        turnover_of u i).
Proof.
  intros Hi1 Hi Hheld.
  destruct (priced_row prices bonds Hpriced (i - 1)) as (prev & Hprev & Hp);
    [lia|].
  destruct (priced_row prices bonds Hpriced i) as (curr & Hcurr & Hc);
    [done|].
  unfold iteration. rewrite Hprev, Hcurr. simpl.
  assert ((if is_empty (holdings st)
           then dict_comp (fun bond =>
                  let* w := getitem weights bond in
                  let* p := getitem prev bond in
                  div (value st * w) p) bonds
           else Ok (holdings st)) = Ok (tabulate u bonds)) as ->.
  { destruct Hheld as [Hnil Hu | Hkept Hne].
    - rewrite Hnil. simpl. apply dict_comp_tabulate. intros b Hb.
      rewrite getitem_weight by done. simpl.
      destruct (Hp b Hb) as [-> Hnz]. simpl.
      rewrite div_nonzero by done. by rewrite Hu.
    - rewrite Hkept. by destruct bonds. }
  simpl. unfold market_value. rewrite keys_tabulate.
  rewrite (sum_of_total _ (fun b => u b * P i b)); last first.
  { intros b Hb. rewrite getitem_tabulate by done. simpl.
    by destruct (Hc b Hb) as [-> _]. }
  simpl. fold (over_maturities bonds (fun b => u b * P i b)).
  fold (spec_value bonds P u i).
  rewrite (dict_comp_tabulate _ (fun b => spec_value bonds P u i * W b));
    last first.
  { intros b Hb. by rewrite getitem_weight. }
  simpl.
  rewrite (dict_comp_tabulate _ (spec_desired_units bonds W P u i));
    last first.
  { intros b Hb. rewrite getitem_tabulate by done. simpl.
    destruct (Hc b Hb) as [-> Hnz]. simpl. by rewrite div_nonzero. }
  simpl.
  rewrite (sum_of_total _
    (fun b => Qcabs (spec_desired_units bonds W P u i b - u b) * P i b));
    last first.
  { intros b Hb. rewrite !getitem_tabulate by done. simpl.
    by destruct (Hc b Hb) as [-> _]. }
  done.
Qed.

Lemma loop_body_spec (i : nat) (st : state) (u : string -> Qc) :
  (1 <= i)%nat -> (i < len prices)%nat -> holds st i u ->
  loop_body prices weights transaction_cost i st
  = Ok {| value := spec_reported bonds W transaction_cost P u i;
          portfolio_values :=
            portfolio_values st
              ++ [spec_reported bonds W transaction_cost P u i];
          holdings := tabulate (spec_desired_units bonds W P u i) bonds |}.
Proof.
  intros Hi1 Hi Hheld. unfold loop_body.
  rewrite (iteration_spec i st u) by done. simpl.
  assert (spec_value bonds P u i - turnover_of u i * transaction_cost
          = spec_reported bonds W transaction_cost P u i) as ->; [|done].
  unfold spec_reported, spec_cost. ring.
Qed.

Lemma holds_after (st : state) (i : nat) (u : string -> Qc) :
  holdings st = tabulate u bonds -> holds st i u.
Proof.
  intros Hst. destruct (decide (bonds = [])) as [Hnil|Hne].
  - apply holds_fresh.
    + rewrite Hst, Hnil. done.
    + intros b Hb. rewrite Hnil in Hb. by apply elem_of_nil in Hb.
  - by apply holds_kept.
Qed.

Lemma loop_spec (count i : nat) (st : state) (u : string -> Qc) :
  (1 <= i)%nat -> (i + count <= len prices)%nat -> holds st i u ->
  exists st',
    for_each (loop_body prices weights transaction_cost) (seq i count) st
    = Ok st' /\
    portfolio_values st'
    = portfolio_values st
        ++ spec_values bonds W transaction_cost P u i count.
Proof.
  revert i st u. induction count as [|count IH]; intros i st u Hi1 Hi Hheld.
  - exists st. simpl. by rewrite app_nil_r.
  - simpl. rewrite (loop_body_spec i st u) by (done || lia). simpl.
    edestruct (IH (S i)) as (st' & -> & Hpv);
      [lia | lia | apply holds_after; reflexivity |].
    exists st'. split; [done|]. rewrite Hpv. simpl.
    by rewrite <- app_assoc.
Qed.
End Simulation.

Lemma spec_values_length maturities weight rate price units i count :
  length (spec_values maturities weight rate price units i count) = count.
Proof.
  revert units i. induction count as [|count IH]; intros units i; simpl;
    [done | by rewrite IH].
Qed.

Lemma simulate_refines {I} (prices : DataFrame I Qc) (weights : dict string Qc)
    (transaction_cost : Qc) :
  priced prices (keys weights) = true ->
  simulate_bond_index prices weights transaction_cost
  = Ok (spec_portfolio (keys weights) (weight_of weights) transaction_cost
          (price_of prices) initial_investment (len prices)).
Proof.
  intros Hpriced. unfold simulate_bond_index, run_upto, spec_portfolio.
  destruct (decide (len prices <= 1)%nat) as [Hshort|Hlong].
  { replace (len prices - 1)%nat with 0%nat by lia. done. }
  edestruct (loop_spec prices weights transaction_cost Hpriced
               (len prices - 1) 1) as (st' & -> & Hpv);
    [lia | lia | |].
  - apply holds_fresh; [reflexivity|]. intros b _. reflexivity.
  - simpl. by rewrite Hpv.
Qed.

(** C1: on a table of n >= 2 rows whose weighted maturities all have a nonzero
    price, [simulate_bond_index] returns exactly n-1 values, and they are the
    values of the specification's recurrence (initial units from row 0, then
    revalue, rebalance, deduct the turnover cost, replace the units); on the
    table [[100,100,100],[110,105,95]] with weights 0.5, 0.3, 0.2 and no cost
    the single value is 1000*0.5*1.10 + 1000*0.3*1.05 + 1000*0.2*0.95. *)
Theorem simulate_bond_index_recurrence :
  (forall (I : Type) (prices : DataFrame I Qc) (weights : dict string Qc)
          (transaction_cost : Qc) (n : nat),
      len prices = n -> (2 <= n)%nat ->
      priced prices (keys weights) = true ->
      exists values,
        simulate_bond_index prices weights transaction_cost = Ok values /\
        length values = (n - 1)%nat /\
        values = spec_portfolio (keys weights) (weight_of weights)
                   transaction_cost (price_of prices) initial_investment n)
  /\ simulate_bond_index two_month_prices half_three_two 0
     = Ok [Qc_of_Z 1000 * decimal 5 1 * decimal 110 2
           + Qc_of_Z 1000 * decimal 3 1 * decimal 105 2
           + Qc_of_Z 1000 * decimal 2 1 * decimal 95 2].
Proof.
  split.
  - intros I prices weights tc n Hlen Hn Hpriced. eexists. split; [|split].
    + rewrite simulate_refines by done. by rewrite Hlen.
    + unfold spec_portfolio. apply spec_values_length.
    + reflexivity.
  - evaluate.
Qed.

Lemma simulate_bond_index_recurrence_witness :
  exists values,
    simulate_bond_index two_month_prices half_three_two (decimal 1 3)
    = Ok values /\
    length values = 1%nat /\
    values = spec_portfolio (keys half_three_two) (weight_of half_three_two)
               (decimal 1 3) (price_of two_month_prices) initial_investment 2.
Proof.
  apply (proj1 simulate_bond_index_recurrence nat two_month_prices
           half_three_two (decimal 1 3) 2%nat).
  - reflexivity.
  - lia.
  - vm_compute. reflexivity.
Defined.

(** C10: a table with fewer than two rows is never entered by the loop:
    [simulate_bond_index] returns the empty list, for any weights and any
    cost rate, without reading a price or dividing. *)
Theorem simulate_bond_index_short_table {I} (prices : DataFrame I Qc)
    (weights : dict string Qc) (transaction_cost : Qc) :
  (len prices < 2)%nat ->
  simulate_bond_index prices weights transaction_cost = Ok [].
Proof.
  intros Hlen. unfold simulate_bond_index, run_upto.
  replace (len prices - 1)%nat with 0%nat by lia. reflexivity.
Qed.

Lemma simulate_bond_index_short_table_witness :
  simulate_bond_index one_zero_row [("A", 1)] (decimal 1 3) = Ok [].
Proof.
  apply (simulate_bond_index_short_table one_zero_row [("A", 1)] (decimal 1 3)).
  vm_compute. lia.
Defined.

(** ** The loop on binary64 against the rounded recurrence *)

Lemma sum_of_from_binary64 {A} (term : A -> result float) (t : A -> float)
    (l : list A) (a : float) :
  (forall x, x ∈ l -> term x = Ok (t x)) ->
  for_each (fun x acc => let* y := term x in Ok (acc + y)%float) l a
  = Ok (fold_left (fun acc x => (acc + t x)%float) l a).
Proof.
  revert a. induction l as [|x l IH]; intros a Ht; simpl; [done|].
  rewrite Ht by left. simpl. apply IH.
  intros y Hy. apply Ht. by right.
Qed.

Lemma sum_of_total_binary64 {A} (term : A -> result float) (t : A -> float)
    (l : list A) :
  (forall x, x ∈ l -> term x = Ok (t x)) ->
  Binary64.sum_of term l
  = Ok (fold_left (fun acc x => (acc + t x)%float) l 0%float).
Proof. apply sum_of_from_binary64. Qed.

Lemma getitem_weight_binary64 (weights : dict string float) (b : string) :
  b ∈ keys weights -> getitem weights b = Ok (Binary64.weight_of weights b).
Proof.
  intros Hb. unfold getitem, Binary64.weight_of.
  by destruct (lookup_key_is_Some weights b Hb) as [w ->].
Qed.

Section ListedBinary64.
Context {I : Type}.
Variable prices : DataFrame I float.
Variable bonds : list string.
Hypothesis Hlisted : Binary64.listed prices bonds = true.

Lemma listed_row_binary64 (i : nat) :
  (i < len prices)%nat ->
  exists row, iloc prices i = Ok row /\
    forall b, b ∈ bonds -> getitem row b = Ok (Binary64.price_of prices i b).
Proof.
  intros Hi. unfold Binary64.listed in Hlisted.
  rewrite forallb_forall in Hlisted.
  specialize (Hlisted i). rewrite in_seq in Hlisted.
  specialize (Hlisted ltac:(lia)).
  destruct (iloc prices i) as [row|e] eqn:Hrow; [|done].
  exists row. split; [done|]. intros b Hb.
  unfold Binary64.listed_row in Hlisted. rewrite forallb_forall in Hlisted.
  apply list_elem_of_In in Hb. specialize (Hlisted b Hb).
  unfold Binary64.price_of, cell. rewrite Hrow. simpl.
  by destruct (getitem row b) as [p|e].
Qed.
End ListedBinary64.

Section SimulationBinary64.
Context {I : Type}.
Variable prices : DataFrame I float.
Variable weights : dict string float.
Variable transaction_cost : float.

Abbreviation bonds64 := (keys weights).
Abbreviation W64 := (Binary64.weight_of weights).
Abbreviation P64 := (Binary64.price_of prices).
Abbreviation units64 :=
  (Binary64.spec_units bonds64 W64 P64 Binary64.initial_investment).

Hypothesis Hlisted : Binary64.listed prices bonds64 = true.

Lemma iteration_spec_binary64 (i : nat) (st : Binary64.state)
    (u : string -> float) :
  (1 <= i)%nat -> (i < len prices)%nat -> Binary64.holds prices weights st i u ->
  Binary64.iteration prices weights i st
  = Ok (Binary64.spec_value bonds64 P64 u i,
        tabulate (Binary64.spec_desired_units bonds64 W64 P64 u i) bonds64,
        Binary64.spec_turnover bonds64 W64 P64 u i).
Proof.
  intros Hi1 Hi Hheld.
  destruct (listed_row_binary64 prices bonds64 Hlisted (i - 1))
    as (prev & Hprev & Hp); [lia|].
  destruct (listed_row_binary64 prices bonds64 Hlisted i)
    as (curr & Hcurr & Hc); [done|].
  unfold Binary64.iteration. rewrite Hprev, Hcurr. simpl.
  assert ((if is_empty (Binary64.holdings st)
           then dict_comp (fun bond =>
                  let* w := getitem weights bond in
                  let* p := getitem prev bond in
                  Ok (Binary64.value st * w / p)%float) bonds64
           else Ok (Binary64.holdings st)) = Ok (tabulate u bonds64)) as ->.
  { destruct Hheld as [Hnil Hu | Hkept Hne].
    - rewrite Hnil. simpl. apply dict_comp_tabulate. intros b Hb.
      rewrite getitem_weight_binary64 by done. simpl.
      rewrite (Hp b Hb). simpl. by rewrite Hu.
    - rewrite Hkept. by destruct bonds64. }
  simpl. unfold Binary64.market_value. rewrite keys_tabulate.
  rewrite (sum_of_total_binary64 _ (fun b => (u b * P64 i b)%float));
    last first.
  { intros b Hb. rewrite getitem_tabulate by done. simpl.
    by rewrite (Hc b Hb). }
  simpl.
  fold (Binary64.over_maturities bonds64 (fun b => (u b * P64 i b)%float)).
  fold (Binary64.spec_value bonds64 P64 u i).
  rewrite (dict_comp_tabulate _
             (fun b => (Binary64.spec_value bonds64 P64 u i * W64 b)%float));
    last first.
  { intros b Hb. by rewrite getitem_weight_binary64. }
  simpl.
  rewrite (dict_comp_tabulate _
             (Binary64.spec_desired_units bonds64 W64 P64 u i)); last first.
  { intros b Hb. rewrite getitem_tabulate by done. simpl.
    by rewrite (Hc b Hb). }
  simpl.
  rewrite (sum_of_total_binary64 _
    (fun b => (abs (Binary64.spec_desired_units bonds64 W64 P64 u i b - u b)
               * P64 i b)%float)); last first.
  { intros b Hb. rewrite !getitem_tabulate by done. simpl.
    by rewrite (Hc b Hb). }
  done.
Qed.

Lemma loop_body_spec_binary64 (i : nat) (st : Binary64.state)
    (u : string -> float) :
  (1 <= i)%nat -> (i < len prices)%nat -> Binary64.holds prices weights st i u ->
  Binary64.loop_body prices weights transaction_cost i st
  = Ok {| Binary64.value :=
            Binary64.spec_reported bonds64 W64 transaction_cost P64 u i;
          Binary64.portfolio_values :=
            Binary64.portfolio_values st
              ++ [Binary64.spec_reported bonds64 W64 transaction_cost P64 u i];
          Binary64.holdings :=
            tabulate (Binary64.spec_desired_units bonds64 W64 P64 u i)
              bonds64 |}.
Proof.
  intros Hi1 Hi Hheld. unfold Binary64.loop_body.
  by rewrite (iteration_spec_binary64 i st u).
Qed.

Lemma holds_after_binary64 (st : Binary64.state) (i : nat)
    (u : string -> float) :
  Binary64.holdings st = tabulate u bonds64 ->
  Binary64.holds prices weights st i u.
Proof.
  intros Hst. destruct (decide (bonds64 = [])) as [Hnil|Hne].
  - apply Binary64.holds_fresh.
    + rewrite Hst, Hnil. done.
    + intros b Hb. rewrite Hnil in Hb. by apply elem_of_nil in Hb.
  - by apply Binary64.holds_kept.
Qed.

Lemma loop_spec_binary64 (count i : nat) (st : Binary64.state)
    (u : string -> float) :
  (1 <= i)%nat -> (i + count <= len prices)%nat ->
  Binary64.holds prices weights st i u ->
  exists st',
    for_each (Binary64.loop_body prices weights transaction_cost)
      (seq i count) st = Ok st' /\
    Binary64.portfolio_values st'
    = Binary64.portfolio_values st
        ++ Binary64.spec_values bonds64 W64 transaction_cost P64 u i count.
Proof.
  revert i st u. induction count as [|count IH]; intros i st u Hi1 Hi Hheld.
  - exists st. simpl. by rewrite app_nil_r.
  - simpl. rewrite (loop_body_spec_binary64 i st u) by (done || lia). simpl.
    edestruct (IH (S i)) as (st' & -> & Hpv);
      [lia | lia | apply holds_after_binary64; reflexivity |].
    exists st'. split; [done|]. rewrite Hpv. simpl.
    by rewrite <- app_assoc.
Qed.

Lemma run_upto_S_binary64 (k : nat) :
  Binary64.run_upto prices weights transaction_cost (S k)
  = let* st := Binary64.run_upto prices weights transaction_cost k in
    Binary64.loop_body prices weights transaction_cost (S k) st.
Proof.
  unfold Binary64.run_upto. rewrite seq_S, for_each_app. simpl.
  destruct (for_each _ (seq 1 k) _) as [st|e]; simpl; [|done].
  by destruct (Binary64.loop_body _ _ _ _ st).
Qed.

Lemma run_upto_holds_binary64 (k : nat) :
  (k < len prices)%nat ->
  exists st,
    Binary64.run_upto prices weights transaction_cost k = Ok st /\
    Binary64.holds prices weights st (S k) (units64 k).
Proof.
  induction k as [|k IH]; intros Hk.
  - eexists. split; [reflexivity|].
    apply Binary64.holds_fresh; [reflexivity|]. intros b _. reflexivity.
  - destruct IH as (st & Hrun & Hheld); [lia|].
    rewrite run_upto_S_binary64, Hrun. simpl.
    rewrite (loop_body_spec_binary64 (S k) st (units64 k)) by (done || lia).
    eexists. split; [reflexivity|].
    apply holds_after_binary64. reflexivity.
Qed.

Lemma run_upto_step_binary64 (i : nat) :
  (1 <= i)%nat -> (i < len prices)%nat ->
  exists before after,
    Binary64.run_upto prices weights transaction_cost (i - 1) = Ok before /\
    Binary64.run_upto prices weights transaction_cost i = Ok after /\
    Binary64.iteration prices weights i before
    = Ok (Binary64.spec_value bonds64 P64 (units64 (i - 1)) i,
          Binary64.holdings after,
          Binary64.spec_turnover bonds64 W64 P64 (units64 (i - 1)) i) /\
    Binary64.holdings after = tabulate (units64 i) bonds64 /\
    Binary64.value after
    = (Binary64.spec_value bonds64 P64 (units64 (i - 1)) i
       - Binary64.spec_turnover bonds64 W64 P64 (units64 (i - 1)) i
         * transaction_cost)%float /\
    Binary64.portfolio_values after
    = Binary64.portfolio_values before ++ [Binary64.value after].
Proof.
  intros Hi1 Hi. destruct i as [|k]; [lia|].
  replace (S k - 1)%nat with k by lia.
  destruct (run_upto_holds_binary64 k) as (st & Hrun & Hheld); [lia|].
  exists st. rewrite run_upto_S_binary64, Hrun. simpl.
  pose proof (iteration_spec_binary64 (S k) st (units64 k) Hi1 Hi Hheld)
    as Hiter.
  unfold Binary64.loop_body. rewrite Hiter. simpl.
  eexists. split; [done|]. split; [reflexivity|]. simpl. done.
Qed.
End SimulationBinary64.

Lemma spec_values_length_binary64 maturities weight rate price units i count :
  length (Binary64.spec_values maturities weight rate price units i count)
  = count.
Proof.
  revert units i. induction count as [|count IH]; intros units i; simpl;
    [done | by rewrite IH].
Qed.

Lemma simulate_refines_binary64 {I} (prices : DataFrame I float)
    (weights : dict string float) (transaction_cost : float) :
  Binary64.listed prices (keys weights) = true ->
  Binary64.simulate_bond_index prices weights transaction_cost
  = Ok (Binary64.spec_portfolio (keys weights) (Binary64.weight_of weights)
          transaction_cost (Binary64.price_of prices)
          Binary64.initial_investment (len prices)).
Proof.
  intros Hlisted.
  unfold Binary64.simulate_bond_index, Binary64.run_upto,
    Binary64.spec_portfolio.
  destruct (decide (len prices <= 1)%nat) as [Hshort|Hlong].
  { replace (len prices - 1)%nat with 0%nat by lia. done. }
  edestruct (loop_spec_binary64 prices weights transaction_cost Hlisted
               (len prices - 1) 1) as (st' & -> & Hpv);
    [lia | lia | |].
  - apply Binary64.holds_fresh; [reflexivity|]. intros b _. reflexivity.
  - simpl. by rewrite Hpv.
Qed.

(** ** The locals after each pass *)

Lemma run_upto_S {I} (prices : DataFrame I Qc) (weights : dict string Qc)
    (transaction_cost : Qc) (k : nat) :
  run_upto prices weights transaction_cost (S k)
  = let* st := run_upto prices weights transaction_cost k in
    loop_body prices weights transaction_cost (S k) st.
Proof.
  unfold run_upto. rewrite seq_S, for_each_app. simpl.
  destruct (for_each _ (seq 1 k) _) as [st|e]; simpl; [|done].
  by destruct (loop_body _ _ _ _ st).
Qed.

Section Run.
Context {I : Type}.
Variable prices : DataFrame I Qc.
Variable weights : dict string Qc.
Variable transaction_cost : Qc.
Hypothesis Hpriced : priced prices (keys weights) = true.

Abbreviation units :=
  (spec_units (keys weights) (weight_of weights) (price_of prices)
     initial_investment).

Lemma run_upto_holds (k : nat) :
  (k < len prices)%nat ->
  exists st,
    run_upto prices weights transaction_cost k = Ok st /\
    holds prices weights st (S k) (units k).
Proof.
  induction k as [|k IH]; intros Hk.
  - eexists. split; [reflexivity|].
    apply holds_fresh; [reflexivity|]. intros b _. reflexivity.
  - destruct IH as (st & Hrun & Hheld); [lia|].
    rewrite run_upto_S, Hrun. simpl.
    rewrite (loop_body_spec prices weights transaction_cost Hpriced
               (S k) st (units k)) by (done || lia).
    eexists. split; [reflexivity|].
    apply holds_after. reflexivity.
Qed.

Lemma run_upto_step (i : nat) :
  (1 <= i)%nat -> (i < len prices)%nat ->
  exists before after,
    run_upto prices weights transaction_cost (i - 1) = Ok before /\
    run_upto prices weights transaction_cost i = Ok after /\
    iteration prices weights i before
    = Ok (spec_value (keys weights) (price_of prices) (units (i - 1)) i,
          holdings after,
          spec_turnover (keys weights) (weight_of weights) (price_of prices)
            (units (i - 1)) i) /\
    holdings after = tabulate (units i) (keys weights) /\
    value after
    = spec_value (keys weights) (price_of prices) (units (i - 1)) i
      - spec_turnover (keys weights) (weight_of weights) (price_of prices)
          (units (i - 1)) i * transaction_cost /\
    portfolio_values after = portfolio_values before ++ [value after].
Proof.
  intros Hi1 Hi. destruct i as [|k]; [lia|].
  replace (S k - 1)%nat with k by lia.
  destruct (run_upto_holds k) as (st & Hrun & Hheld); [lia|].
  exists st. rewrite run_upto_S, Hrun. simpl.
  pose proof (iteration_spec prices weights Hpriced (S k) st (units k)
                Hi1 Hi Hheld) as Hiter.
  unfold loop_body. rewrite Hiter. simpl.
  eexists. split; [done|]. split; [reflexivity|]. simpl. done.
Qed.
End Run.

(** ** Sums over the maturities *)

Lemma Qcsum_ext {A} (f g : A -> Qc) (l : list A) :
  (forall x, x ∈ l -> f x = g x) -> Qcsum (map f l) = Qcsum (map g l).
Proof.
  induction l as [|x l IH]; intros Hfg; simpl; [done|].
  rewrite Hfg by left. rewrite IH; [done|].
  intros y Hy. apply Hfg. by right.
Qed.

Lemma Qcsum_scale {A} (c : Qc) (f : A -> Qc) (l : list A) :
  Qcsum (map (fun x => c * f x) l) = c * Qcsum (map f l).
Proof.
  induction l as [|x l IH]; simpl; [ring|]. rewrite IH. ring.
Qed.

Lemma Qcsum_zero {A} (f : A -> Qc) (l : list A) :
  (forall x, x ∈ l -> f x = 0) -> Qcsum (map f l) = 0.
Proof.
  induction l as [|x l IH]; intros Hf; simpl; [done|].
  rewrite Hf by left. rewrite IH; [ring|].
  intros y Hy. apply Hf. by right.
Qed.

Lemma Qcabs_0 : Qcabs 0 = 0.
Proof. apply Qcabs_pos. apply Qcle_refl. Qed.

(** ** Holdings that already match the weights *)

Section Balanced.
Variable maturities : list string.
Variable weight : string -> Qc.
Variable price : nat -> string -> Qc.
Hypothesis Hsum : Qcsum (map weight maturities) = 1.

Lemma balanced_value (u : string -> Qc) (i : nat) (X : Qc) :
  (forall b, b ∈ maturities -> price i b <> 0) ->
  (forall b, b ∈ maturities -> u b = X * weight b / price i b) ->
  spec_value maturities price u i = X.
Proof.
  intros Hnz Hu. unfold spec_value, over_maturities.
  rewrite (Qcsum_ext _ (fun b => X * weight b)).
  - rewrite Qcsum_scale, Hsum. ring.
  - intros b Hb. rewrite (Hu b Hb). field. by apply Hnz.
Qed.

Lemma balanced_desired (u : string -> Qc) (i : nat) (X : Qc) :
  (forall b, b ∈ maturities -> price i b <> 0) ->
  (forall b, b ∈ maturities -> u b = X * weight b / price i b) ->
  forall b, b ∈ maturities -> spec_desired_units maturities weight price u i b = u b.
Proof.
  intros Hnz Hu b Hb. unfold spec_desired_units.
  rewrite (balanced_value u i X) by done. by rewrite (Hu b Hb).
Qed.

Lemma balanced_turnover (u : string -> Qc) (i : nat) (X : Qc) :
  (forall b, b ∈ maturities -> price i b <> 0) ->
  (forall b, b ∈ maturities -> u b = X * weight b / price i b) ->
  spec_turnover maturities weight price u i = 0.
Proof.
  intros Hnz Hu. unfold spec_turnover, over_maturities.
  apply Qcsum_zero. intros b Hb.
  rewrite (balanced_desired u i X) by done.
  replace (u b - u b) with 0 by ring. rewrite Qcabs_0. ring.
Qed.
End Balanced.

Lemma spec_units_shape maturities weight price capital (k : nat) :
  exists X, forall b,
    spec_units maturities weight price capital k b = X * weight b / price k b.
Proof.
  destruct k as [|k]; simpl.
  - by exists capital.
  - by eexists.
Qed.

Lemma total_weight_eq (weights : dict string Qc) :
  total_weight weights = Qcsum (map (weight_of weights) (keys weights)).
Proof. reflexivity. Qed.

Lemma price_of_same_row {I} (prices : DataFrame I Qc) (i j : nat) (b : string) :
  iloc prices i = iloc prices j -> price_of prices i b = price_of prices j b.
Proof. intros Hrow. unfold price_of, cell. by rewrite Hrow. Qed.

Lemma market_value_tabulate (u : string -> Qc) (bonds : list string)
    (curr : dict string Qc) (p : string -> Qc) :
  (forall b, b ∈ bonds -> getitem curr b = Ok (p b)) ->
  market_value (tabulate u bonds) curr
  = Ok (Qcsum (map (fun b => u b * p b) bonds)).
Proof.
  intros Hcurr. unfold market_value. rewrite keys_tabulate.
  apply sum_of_total. intros b Hb.
  rewrite getitem_tabulate by done. simpl. by rewrite Hcurr.
Qed.

Lemma last_snoc_value (l : list Qc) (x : Qc) : last (l ++ [x]) = Some x.
Proof. apply last_snoc. Qed.

(** ** Invariants of the simulation loop *)







(** ** Powers and quotients of positive rationals *)

Lemma Qcpower_pos_strict (x : Qc) (n : nat) : 0 < x -> 0 < x ^ n.
Proof.
  intros Hx. induction n as [|n IH]; simpl; [done|].
  by apply Qcmult_pos_pos.
Qed.

Lemma Qcpower_nonzero (x : Qc) (n : nat) : x <> 0 -> x ^ n <> 0.
Proof.
  intros Hx. induction n as [|n IH]; simpl; [done|].
  intros H. by destruct (Qcmult_integral _ _ H).
Qed.

Lemma Qcpower_lt_mono (x y : Qc) (n : nat) :
  0 < x -> x < y -> (0 < n)%nat -> x ^ n < y ^ n.
Proof.
  intros Hx Hxy Hn. induction n as [|n IH]; [lia|].
  destruct n as [|n].
  - simpl. by rewrite !Qcmult_1_r.
  - assert (x ^ S n < y ^ S n) as Hlt by (apply IH; lia).
    change (x * x ^ S n < y * y ^ S n).
    apply Qclt_trans with (x * y ^ S n).
    + by apply Qcmult_lt_mono_pos_l.
    + apply Qcmult_lt_mono_pos_r; [|done].
      apply Qcpower_pos_strict. by apply Qclt_trans with x.
Qed.

Lemma Qcdiv_pos (c a : Qc) : 0 < c -> 0 < a -> 0 < c / a.
Proof. intros Hc Ha. apply Qcmult_pos_pos; [done | by apply Qcinv_pos]. Qed.

Lemma Qcdiv_lt_anti (c a b : Qc) : 0 < c -> 0 < a -> a < b -> c / b < c / a.
Proof.
  intros Hc Ha Hab.
  assert (0 < b) as Hb by (by apply Qclt_trans with a).
  assert (a <> 0) as Ha' by (intros ->; by apply (Qclt_not_eq 0 0)).
  assert (b <> 0) as Hb' by (intros ->; by apply (Qclt_not_eq 0 0)).
  apply (Qcmult_lt_mono_pos_r _ _ (a * b)); [by apply Qcmult_pos_pos|].
  replace (c / b * (a * b)) with (c * a) by (field; done).
  replace (c / a * (a * b)) with (c * b) by (field; done).
  by apply Qcmult_lt_mono_pos_l.
Qed.

Lemma hundred_pos : 0 < Qc_of_Z 100.
Proof. reflexivity. Qed.

Lemma hundred_nonzero : Qc_of_Z 100 <> 0.
Proof. done. Qed.

Lemma growth_pos (y : Qc) : - Qc_of_Z 100 < y -> 0 < 1 + y / Qc_of_Z 100.
Proof.
  intros Hy.
  apply (Qcmult_lt_mono_pos_r _ _ (Qc_of_Z 100)); [apply hundred_pos|].
  replace ((1 + y / Qc_of_Z 100) * Qc_of_Z 100) with (Qc_of_Z 100 + y)
    by (field; apply hundred_nonzero).
  rewrite Qcmult_0_l.
  apply (Qcplus_lt_mono_l _ _ (Qc_of_Z 100)) in Hy.
  by rewrite Qcplus_opp_r in Hy.
Qed.

Lemma growth_lt (y1 y2 : Qc) :
  y1 < y2 -> 1 + y1 / Qc_of_Z 100 < 1 + y2 / Qc_of_Z 100.
Proof.
  intros Hy. apply Qcplus_lt_mono_l.
  apply Qcmult_lt_mono_pos_r; [|done].
  apply Qcinv_pos, hundred_pos.
Qed.

Lemma bond_price_nonneg_duration (y : Qc) (d : Z) :
  1 + y / Qc_of_Z 100 <> 0 -> (0 <= d)%Z ->
  bond_price y d = Ok (Qc_of_Z 100 / (1 + y / Qc_of_Z 100) ^ Z.to_nat d).
Proof.
  intros Hx Hd. unfold bond_price. destruct d as [|p|p]; [| |lia].
  - simpl. by rewrite div_nonzero.
  - simpl. rewrite div_nonzero; [done|]. by apply Qcpower_nonzero.
Qed.

(** ** Positivity and monotonicity of [bond_price] *)

(** C4 (amended): in exact arithmetic, for every yield above -100 and every
    whole duration >= 0, [bond_price] returns a strictly positive price; for
    every duration > 0 it is strictly decreasing in the yield; at duration 0
    it is the constant 100. *)
Theorem bond_price_positive_and_decreasing :
  (forall (y : Qc) (d : Z),
      - Qc_of_Z 100 < y -> (0 <= d)%Z ->
      exists p, bond_price y d = Ok p /\ 0 < p) /\
  (forall (y1 y2 : Qc) (d : Z),
      - Qc_of_Z 100 < y1 -> y1 < y2 -> (0 < d)%Z ->
      exists p1 p2,
        bond_price y1 d = Ok p1 /\ bond_price y2 d = Ok p2 /\ p2 < p1) /\
  (forall y : Qc, bond_price y 0 = Ok (Qc_of_Z 100)).
Proof.
  split; [|split].
  - intros y d Hy Hd. pose proof (growth_pos y Hy) as Hx.
    eexists. split.
    + apply bond_price_nonneg_duration; [|done].
      intros H0. rewrite H0 in Hx. by apply (Qclt_not_eq 0 0).
    + apply Qcdiv_pos; [apply hundred_pos | by apply Qcpower_pos_strict].
  - intros y1 y2 d Hy1 Hy Hd.
    pose proof (growth_pos y1 Hy1) as Hx1.
    pose proof (growth_lt y1 y2 Hy) as Hx.
    assert (0 < 1 + y2 / Qc_of_Z 100) as Hx2
      by (by apply Qclt_trans with (1 + y1 / Qc_of_Z 100)).
    eexists _, _. split; [|split].
    + apply bond_price_nonneg_duration; [|lia].
      intros H0. rewrite H0 in Hx1. by apply (Qclt_not_eq 0 0).
    + apply bond_price_nonneg_duration; [|lia].
      intros H0. rewrite H0 in Hx2. by apply (Qclt_not_eq 0 0).
    + apply Qcdiv_lt_anti.
      * apply hundred_pos.
      * by apply Qcpower_pos_strict.
      * apply Qcpower_lt_mono; [done | done | lia].
  - intros y. unfold bond_price. simpl. rewrite div_nonzero by done.
    f_equal. apply (right_id 1 Qcdiv).
Qed.

Lemma bond_price_positive_and_decreasing_witness :
  (exists p, bond_price (Qc_of_Z 2) 5 = Ok p /\ 0 < p) /\
  (exists p1 p2,
      bond_price (Qc_of_Z 1) 5 = Ok p1 /\ bond_price (Qc_of_Z 2) 5 = Ok p2 /\
      p2 < p1).
Proof.
  split.
  - apply (proj1 bond_price_positive_and_decreasing (Qc_of_Z 2) 5%Z).
    + vm_compute. reflexivity.
    + lia.
  - apply (proj1 (proj2 bond_price_positive_and_decreasing)
             (Qc_of_Z 1) (Qc_of_Z 2) 5%Z).
    + vm_compute. reflexivity.
    + vm_compute. reflexivity.
    + lia.
Defined.

(** Runs against the claim as stated.  In exact arithmetic, at duration 0 the
    yields 1 and 2 price at the same 100.  On binary64: at duration 1 the
    yields 0 and 2^-60 price at the same 100.0, because 1 + 2^-60/100 rounds
    to 1; at yield -99 and duration 200 the power 0.01^200 underflows to 0
    and the division raises; at yield 100 and duration 1100 the power 2^1100
    overflows and [**] raises.  All these yields are above -100 and all
    these durations at least 0. *)
Lemma zero_duration_and_rounding_break_monotonicity :
  (- Qc_of_Z 100 < Qc_of_Z 1 /\ Qc_of_Z 1 < Qc_of_Z 2 /\ (0 <= 0)%Z /\
   bond_price (Qc_of_Z 1) 0 = Ok (Qc_of_Z 100) /\
   bond_price (Qc_of_Z 2) 0 = Ok (Qc_of_Z 100) /\
   ~ (Qc_of_Z 100 < Qc_of_Z 100)) /\
  ((-100 <? 0)%float = true /\ (0 <? 0x1p-60)%float = true /\
   Binary64.bond_price Binary64.correctly_rounded_pow 0%float 1
   = Ok 100%float /\
   Binary64.bond_price Binary64.correctly_rounded_pow 0x1p-60%float 1
   = Ok 100%float /\
   (100 <? 100)%float = false) /\
  ((-100 <? -99)%float = true /\
   Binary64.bond_price Binary64.correctly_rounded_pow (-99)%float 200
   = Raise ZeroDivisionError) /\
  ((-100 <? 100)%float = true /\
   Binary64.bond_price Binary64.correctly_rounded_pow 100%float 1100
   = Raise OverflowError).
Proof.
  split; [|split; [|split]].
  - split; [reflexivity|]. split; [reflexivity|]. split; [lia|].
    split; [evaluate|]. split; [evaluate|].
    intros H. by apply (Qclt_not_eq _ _ H).
  - repeat split; vm_compute; reflexivity.
  - split; vm_compute; reflexivity.
  - split; vm_compute; reflexivity.
Qed.

(** ** Column-wise pricing of the yield table *)

Section DictNoDup.
Context {K : Type} `{EqDecision K} {V : Type}.
Implicit Types (d : dict K V).

Lemma keys_app d1 d2 : keys (d1 ++ d2) = keys d1 ++ keys d2.
Proof. unfold keys. apply map_app. Qed.

Lemma elem_of_keys d k v : (k, v) ∈ d -> k ∈ keys d.
Proof.
  intros Hin. unfold keys. apply list_elem_of_fmap. by exists (k, v).
Qed.

Lemma lookup_key_NoDup d k v :
  NoDup (keys d) -> (k, v) ∈ d -> lookup_key k d = Some v.
Proof.
  induction d as [|[k' v'] d IH]; simpl; intros Hnd Hin.
  - by apply elem_of_nil in Hin.
  - apply NoDup_cons in Hnd as [Hfresh Hnd].
    apply elem_of_cons in Hin as [[= -> ->]|Hin].
    + by destruct (decide (k' = k')).
    + destruct (decide (k = k')) as [->|Hne]; [|by apply IH].
      destruct Hfresh. by apply (elem_of_keys d k' v).
Qed.

Lemma lookup_key_elem_of d k v : lookup_key k d = Some v -> (k, v) ∈ d.
Proof.
  induction d as [|[k' v'] d IH]; simpl; [done|].
  destruct (decide (k = k')) as [->|Hne].
  - intros [= ->]. by left.
  - intros Hl. right. by apply IH.
Qed.

Lemma setitem_fresh d k v : k ∉ keys d -> setitem d k v = d ++ [(k, v)].
Proof.
  induction d as [|[k' v'] d IH]; simpl; intros Hfresh; [done|].
  apply not_elem_of_cons in Hfresh as [Hne Hfresh].
  destruct (decide (k = k')); [done|]. by rewrite IH.
Qed.
End DictNoDup.

Lemma durations_nonneg (col : string) (d : Z) :
  lookup_key col durations = Some d -> (0 <= d)%Z.
Proof.
  unfold durations. simpl.
  repeat (case_decide; [intros [= <-]; lia|]). done.
Qed.

Lemma priceable_column_spec (n : nat) (col : string) (ys : list Qc) :
  priceable_column n (col, ys) = true ->
  length ys = n /\ col ∈ keys durations /\
  forall y, y ∈ ys -> 1 + y / Qc_of_Z 100 <> 0.
Proof.
  unfold priceable_column. simpl. rewrite !andb_true_iff.
  intros [[Hlen Hcol] Hys].
  apply bool_decide_eq_true_1 in Hlen. apply bool_decide_eq_true_1 in Hcol.
  split; [done|]. split; [done|]. intros y Hy.
  rewrite forallb_forall in Hys. apply list_elem_of_In in Hy.
  specialize (Hys y Hy). by apply bool_decide_eq_true in Hys.
Qed.

Lemma priced_yield (col : string) (y : Qc) :
  col ∈ keys durations -> 1 + y / Qc_of_Z 100 <> 0 ->
  exists d,
    getitem durations col = Ok d /\
    bond_price y d = Ok (spec_price y (duration_of col)) /\
    duration_of col = Z.to_nat d.
Proof.
  intros Hcol Hy. unfold getitem, duration_of.
  destruct (lookup_key_is_Some durations col Hcol) as [d Hd].
  rewrite Hd. exists d. split; [done|]. split; [|done].
  apply bond_price_nonneg_duration; [done|]. by apply (durations_nonneg col).
Qed.

Lemma prices_loop {I} (yields_df : DataFrame I Qc) (idx : list I)
    (todo acc : dict string (list Qc)) :
  (forall col ys, (col, ys) ∈ todo ->
     getitem (columns yields_df) col = Ok ys /\
     col ∈ keys durations /\
     forall y, y ∈ ys -> 1 + y / Qc_of_Z 100 <> 0) ->
  NoDup (keys acc ++ keys todo) ->
  for_each
    (fun col prices_df =>
       let* ys := getitem (columns yields_df) col in
       let* ps := traverse (fun y =>
                              let* d := getitem durations col in
                              bond_price y d) ys in
       Ok {| index := index prices_df;
             columns := setitem (columns prices_df) col ps |})
    (keys todo) {| index := idx; columns := acc |}
  = Ok {| index := idx; columns := acc ++ map priced_column todo |}.
Proof.
  revert acc. induction todo as [|[col ys] todo IH]; intros acc Hcols Hnd.
  - simpl. by rewrite app_nil_r.
  - simpl. destruct (Hcols col ys) as (-> & Hcol & Hys); [by left|]. simpl.
    rewrite (traverse_tabulate _ (fun y => spec_price y (duration_of col)));
      last first.
    { intros y Hy. destruct (priced_yield col y Hcol (Hys y Hy))
        as (d & Hd & Hp & _). rewrite Hd. exact Hp. }
    simpl. rewrite setitem_fresh; last first.
    { simpl in Hnd. apply NoDup_app in Hnd as (_ & Hdisj & _).
      intros Hin. apply (Hdisj col Hin). by left. }
    rewrite IH.
    + by rewrite <- app_assoc.
    + intros col' ys' Hin. apply Hcols. by right.
    + rewrite keys_app. simpl. by rewrite <- app_assoc.
Qed.

Lemma prices_df_spec {I} (yields_df : DataFrame I Qc) :
  priceable yields_df = true ->
  prices_df yields_df
  = Ok {| index := index yields_df;
          columns := map priced_column (columns yields_df) |}.
Proof.
  unfold priceable. rewrite andb_true_iff. intros [Hnd Hcols].
  apply bool_decide_eq_true in Hnd. rewrite forallb_forall in Hcols.
  unfold prices_df. rewrite (prices_loop yields_df); [done| |done].
  intros col ys Hin. split.
  - unfold getitem. by rewrite (lookup_key_NoDup _ col ys).
  - apply list_elem_of_In in Hin.
    by destruct (priceable_column_spec _ col ys (Hcols _ Hin)) as (_ & ? & ?).
Qed.

(** ** Rows of a frame and of its priced image *)

Section Rows.
Context {A : Type}.
Implicit Types (cols : dict string (list A)) (row : dict string A).

Abbreviation read_row i :=
  (traverse (fun '(col, vs) =>
               match vs !! i with
               | Some v => Ok (col, v)
               | None => Raise IndexError
               end)).

Lemma read_row_lookup cols (i : nat) row (col : string) :
  read_row i cols = Ok row ->
  lookup_key col row = ys ← lookup_key col cols; ys !! i.
Proof.
  revert row. induction cols as [|[c vs] cols IH]; intros row; simpl.
  - by intros [= <-].
  - destruct (vs !! i) as [v|] eqn:Hv; simpl; [|done].
    destruct (read_row i cols) as [row'|e]; simpl; [|done].
    intros [= <-]. simpl. destruct (decide (col = c)); [done|]. by apply IH.
Qed.

Lemma read_row_map {B} (f : string -> A -> B) cols (i : nat) row :
  read_row i cols = Ok row ->
  read_row i (map (fun c => (c.1, map (f c.1) c.2)) cols)
  = Ok (map (fun c => (c.1, f c.1 c.2)) row).
Proof.
  revert row. induction cols as [|[c vs] cols IH]; intros row; simpl.
  - by intros [= <-].
  - rewrite list_lookup_fmap.
    destruct (vs !! i) as [v|] eqn:Hv; simpl; [|done].
    destruct (read_row i cols) as [row'|e]; simpl; [|done].
    intros [= <-]. by rewrite (IH row').
Qed.

Lemma read_row_map_raise {B} (f : string -> A -> B) cols (i : nat) (e : exn) :
  read_row i cols = Raise e ->
  read_row i (map (fun c => (c.1, map (f c.1) c.2)) cols) = Raise e.
Proof.
  induction cols as [|[c vs] cols IH]; simpl; [done|].
  rewrite list_lookup_fmap.
  destruct (vs !! i) as [v|] eqn:Hv; cbn.
  2:{ by intros [= <-]. }
  destruct (read_row i cols) as [row'|e']; cbn; [done|].
  intros [= ->]. by rewrite IH.
Qed.

Lemma lookup_key_map {B} (f : string -> A -> B) row (col : string) :
  lookup_key col (map (fun c => (c.1, f c.1 c.2)) row)
  = f col <$> lookup_key col row.
Proof.
  induction row as [|[c v] row IH]; simpl; [done|].
  by destruct (decide (col = c)) as [->|].
Qed.
End Rows.

Lemma cell_elem_of {I A} (df : DataFrame I A) (i : nat) (col : string) (y : A) :
  cell df i col = Ok y ->
  exists ys, (col, ys) ∈ columns df /\ y ∈ ys.
Proof.
  unfold cell, iloc. case_decide; [|done].
  destruct (traverse _ (columns df)) as [row|e] eqn:Hrow; simpl; [|done].
  unfold getitem. rewrite (read_row_lookup _ _ _ col Hrow).
  destruct (lookup_key col (columns df)) as [ys|] eqn:Hys; simpl; [|done].
  destruct (ys !! i) as [v|] eqn:Hv; [|done]. intros [= ->].
  exists ys. split; [by apply lookup_key_elem_of|].
  by apply list_elem_of_lookup_2 with i.
Qed.

Lemma priced_cell {I} (yields_df : DataFrame I Qc) (i : nat) (col : string) :
  priceable yields_df = true ->
  cell {| index := index yields_df;
          columns := map priced_column (columns yields_df) |} i col
  = let* y := cell yields_df i col in
    let* d := getitem durations col in
    bond_price y d.
Proof.
  intros Hok.
  destruct (cell yields_df i col) as [y|e] eqn:Hcell; simpl.
  - destruct (cell_elem_of _ _ _ _ Hcell) as (ys & Hin & Hy).
    unfold priceable in Hok. rewrite andb_true_iff in Hok.
    destruct Hok as [_ Hcols]. rewrite forallb_forall in Hcols.
    apply list_elem_of_In in Hin.
    destruct (priceable_column_spec _ col ys (Hcols _ Hin)) as (_ & Hcol & Hys).
    destruct (priced_yield col y Hcol (Hys y Hy)) as (d & Hd & Hp & _).
    rewrite Hd. cbn [bind]. rewrite Hp. revert Hcell. unfold cell, iloc, len. simpl.
    case_decide; [|done].
    destruct (traverse _ (columns yields_df)) as [row|e] eqn:Hrow; simpl;
      [|done].
    unfold priced_column.
    rewrite (read_row_map (fun c y => spec_price y (duration_of c)) _ _ _ Hrow).
    simpl. unfold getitem.
    rewrite (lookup_key_map (fun c y => spec_price y (duration_of c))).
    by destruct (lookup_key col row) as [v|]; simpl; [intros [= ->]|].
  - revert Hcell. unfold cell, iloc, len. simpl.
    case_decide; [|done].
    destruct (traverse _ (columns yields_df)) as [row|e'] eqn:Hrow; simpl.
    + unfold priced_column.
      rewrite (read_row_map (fun c y => spec_price y (duration_of c)) _ _ _ Hrow).
      simpl. unfold getitem.
      rewrite (lookup_key_map (fun c y => spec_price y (duration_of c))).
      by destruct (lookup_key col row).
    + intros [= ->]. unfold priced_column.
      by rewrite (read_row_map_raise
                    (fun c y => spec_price y (duration_of c)) _ _ _ Hrow).
Qed.

Lemma keys_priced_columns (cols : dict string (list Qc)) :
  keys (map priced_column cols) = keys cols.
Proof. unfold keys. rewrite map_map. done. Qed.



(** ** Tables whose series never change *)

Lemma read_row_total {A} (cols : dict string (list A)) (n i : nat) :
  (forall c, c ∈ cols -> length c.2 = n) -> (i < n)%nat ->
  exists row,
    traverse (fun '(col, vs) =>
                match vs !! i with
                | Some v => Ok (col, v)
                | None => Raise IndexError
                end) cols = Ok row.
Proof.
  intros Hlen Hi. induction cols as [|[c vs] cols IH]; simpl; [by eexists|].
  destruct (lookup_lt_is_Some_2 vs i) as [v ->].
  { pose proof (Hlen (c, vs) ltac:(by left)) as Hvs. simpl in Hvs. lia. }
  simpl. destruct IH as [row ->]; [|by eexists].
  intros c' Hc'. apply Hlen. by right.
Qed.

Lemma cell_lookup {I A} (df : DataFrame I A) (i : nat) (col : string) :
  (forall c, c ∈ columns df -> length c.2 = len df) -> (i < len df)%nat ->
  exists row,
    iloc df i = Ok row /\
    forall col, lookup_key col row = ys ← lookup_key col (columns df); ys !! i.
Proof.
  intros Hlen Hi. unfold iloc. case_decide; [|done].
  destruct (read_row_total (columns df) (len df) i Hlen Hi) as [row Hrow].
  exists row. split; [done|]. intros col'.
  by apply (read_row_lookup _ _ _ col' Hrow).
Qed.

Lemma constant_series_lookup (vs : list Qc) (i : nat) :
  constant_series vs = true -> (i < length vs)%nat -> vs !! i = vs !! 0%nat.
Proof.
  destruct vs as [|v rest]; simpl; [lia|]. intros Hconst Hi.
  destruct i as [|i]; [done|]. simpl.
  rewrite forallb_forall in Hconst.
  destruct (lookup_lt_is_Some_2 rest i) as [v' Hv']; [lia|].
  rewrite Hv'. f_equal. apply (bool_decide_eq_true_1 _).
  apply Hconst. apply list_elem_of_In. by apply list_elem_of_lookup_2 with i.
Qed.

Lemma constant_series_map (f : Qc -> Qc) (vs : list Qc) :
  constant_series vs = true -> constant_series (map f vs) = true.
Proof.
  destruct vs as [|v rest]; simpl; [done|].
  rewrite !forallb_forall. intros Hconst y Hy.
  apply in_map_iff in Hy as (x & <- & Hx).
  apply bool_decide_eq_true_2.
  by rewrite (bool_decide_eq_true_1 _ (Hconst x Hx)).
Qed.

Lemma spec_price_nonzero (y : Qc) (n : nat) :
  1 + y / Qc_of_Z 100 <> 0 -> spec_price y n <> 0.
Proof.
  intros Hx H0. unfold spec_price in H0.
  apply (Qcpower_nonzero _ n) in Hx.
  destruct (Qcmult_integral (Qc_of_Z 100) (/ (1 + y / Qc_of_Z 100) ^ n) H0)
    as [H|H]; [done|].
  pose proof (Qcmult_inv_r _ Hx) as Hinv.
  rewrite H, Qcmult_0_r in Hinv. by apply Q_apart_0_1.
Qed.

Section Steady.
Variable maturities : list string.
Variable weight : string -> Qc.
Variable rate : Qc.
Variable price : nat -> string -> Qc.
Hypothesis Hsum : Qcsum (map weight maturities) = 1.
Hypothesis Hnonzero : forall b, b ∈ maturities -> price 0 b <> 0.

Lemma spec_values_constant (count i : nat) (u : string -> Qc) (X : Qc) :
  (forall j b, (j < i + count)%nat -> b ∈ maturities ->
     price j b = price 0 b) ->
  (forall b, b ∈ maturities -> u b = X * weight b / price 0 b) ->
  spec_values maturities weight rate price u i count = replicate count X.
Proof.
  revert i u. induction count as [|count IH]; intros i u Hflat Hu; [done|].
  assert (forall b, b ∈ maturities -> price i b <> 0) as Hnz.
  { intros b Hb. rewrite Hflat by (done || lia). by apply Hnonzero. }
  assert (forall b, b ∈ maturities -> u b = X * weight b / price i b) as Hu'.
  { intros b Hb. rewrite Hflat by (done || lia). by apply Hu. }
  simpl. f_equal.
  - unfold spec_reported, spec_cost.
    rewrite (balanced_value _ _ _ Hsum u i X) by done.
    rewrite (balanced_turnover _ _ _ Hsum u i X) by done. ring.
  - apply IH.
    + intros j b Hj Hb. apply Hflat; [lia | done].
    + intros b Hb. rewrite (balanced_desired _ _ _ Hsum u i X) by done.
      by apply Hu.
Qed.
End Steady.

Lemma lookup_key_priced (cols : dict string (list Qc)) (b : string) :
  lookup_key b (map priced_column cols)
  = map (fun y => spec_price y (duration_of b)) <$> lookup_key b cols.
Proof.
  apply (lookup_key_map
           (fun c ys => map (fun y => spec_price y (duration_of c)) ys)).
Qed.

Section SteadyTable.
Context {I : Type}.
Variable yields_df : DataFrame I Qc.
Hypothesis Hpriceable : priceable yields_df = true.
Hypothesis Hconstant : constant_columns yields_df = true.

Abbreviation steady_prices :=
  {| index := index yields_df;
     columns := map priced_column (columns yields_df) |}.

Lemma steady_prices_wf (c : string * list Qc) :
  c ∈ columns steady_prices -> length c.2 = len steady_prices.
Proof.
  simpl. intros Hc. apply list_elem_of_fmap in Hc as ([col ys] & -> & Hin).
  simpl. rewrite length_map.
  pose proof Hpriceable as Hcols.
  unfold priceable in Hcols. rewrite andb_true_iff in Hcols.
  destruct Hcols as [_ Hcols]. rewrite forallb_forall in Hcols.
  apply list_elem_of_In in Hin.
  by destruct (priceable_column_spec _ col ys (Hcols _ Hin)) as (? & _).
Qed.

Lemma steady_prices_constant : constant_columns steady_prices = true.
Proof.
  pose proof Hconstant as Hconsts.
  unfold constant_columns in Hconsts |- *. simpl.
  rewrite forallb_forall in Hconsts. rewrite forallb_forall.
  intros c Hc. apply in_map_iff in Hc as ([col ys] & <- & Hin).
  simpl. apply constant_series_map. by apply (Hconsts (col, ys)).
Qed.

Lemma steady_price (b : string) :
  b ∈ keys (columns yields_df) ->
  exists p, p <> 0 /\
    forall i, (i < len yields_df)%nat ->
      exists row, iloc steady_prices i = Ok row /\ getitem row b = Ok p.
Proof.
  intros Hb.
  destruct (lookup_key_is_Some (columns yields_df) b Hb) as [ys Hys].
  pose proof (lookup_key_elem_of _ _ _ Hys) as Hin.
  pose proof Hpriceable as Hcols. pose proof Hconstant as Hconsts.
  unfold priceable in Hcols. rewrite andb_true_iff in Hcols.
  destruct Hcols as [_ Hcols]. rewrite forallb_forall in Hcols.
  unfold constant_columns in Hconsts. rewrite forallb_forall in Hconsts.
  apply list_elem_of_In in Hin.
  destruct (priceable_column_spec _ b ys (Hcols _ Hin)) as (Hlen & _ & Hnz).
  pose proof (Hconsts _ Hin) as Hconst. simpl in Hconst.
  destruct ys as [|y0 rest].
  { exists 1. split; [done|]. intros i Hi. simpl in Hlen. lia. }
  exists (spec_price y0 (duration_of b)). split.
  { apply spec_price_nonzero, Hnz. by left. }
  intros i Hi.
  destruct (cell_lookup steady_prices i b steady_prices_wf Hi)
    as (row & Hrow & Hlook).
  exists row. split; [done|]. unfold getitem.
  rewrite Hlook. simpl. rewrite lookup_key_priced, Hys.
  change (map (fun y => spec_price y (duration_of b)) <$> Some (y0 :: rest))
    with (Some (map (fun y => spec_price y (duration_of b)) (y0 :: rest))).
  change (match map (fun y => spec_price y (duration_of b)) (y0 :: rest) !! i
          with
          | Some v => Ok v
          | None => Raise KeyError
          end = Ok (spec_price y0 (duration_of b))).
  rewrite list_lookup_fmap.
  rewrite (constant_series_lookup (y0 :: rest) i Hconst) by (simpl in *; lia).
  done.
Qed.

Lemma steady_prices_priced (bonds : list string) :
  covers yields_df bonds = true -> priced steady_prices bonds = true.
Proof.
  unfold covers. rewrite forallb_forall. intros Hcov.
  unfold priced. rewrite forallb_forall. intros i Hi.
  apply in_seq in Hi as [_ Hi]. simpl in Hi.
  destruct (cell_lookup steady_prices i "" steady_prices_wf Hi)
    as (row & Hrow & _).
  rewrite Hrow. unfold nonzero_row. rewrite forallb_forall. intros b Hb.
  specialize (Hcov b Hb). apply bool_decide_eq_true in Hcov.
  destruct (steady_price b Hcov) as (p & Hp & Hrows).
  destruct (Hrows i Hi) as (row' & Hrow' & Hget).
  rewrite Hrow in Hrow'. injection Hrow' as <-.
  rewrite Hget. by apply bool_decide_eq_true_2.
Qed.

Lemma steady_prices_flat (bonds : list string) (i : nat) (b : string) :
  covers yields_df bonds = true -> b ∈ bonds -> (i < len yields_df)%nat ->
  price_of steady_prices i b = price_of steady_prices 0 b /\
  price_of steady_prices 0 b <> 0.
Proof.
  unfold covers. rewrite forallb_forall. intros Hcov Hb Hi.
  apply list_elem_of_In in Hb. specialize (Hcov b Hb).
  apply bool_decide_eq_true in Hcov.
  destruct (steady_price b Hcov) as (p & Hp & Hrows).
  destruct (Hrows i Hi) as (row & Hrow & Hget).
  destruct (Hrows 0%nat ltac:(lia)) as (row0 & Hrow0 & Hget0).
  unfold price_of, cell. by rewrite Hrow, Hrow0; simpl; rewrite Hget, Hget0.
Qed.
End SteadyTable.

Lemma simulate_short {I} (prices : DataFrame I Qc) (weights : dict string Qc)
    (transaction_cost : Qc) :
  (len prices < 2)%nat ->
  simulate_bond_index prices weights transaction_cost = Ok [].
Proof.
  intros Hlen. unfold simulate_bond_index, run_upto.
  replace (len prices - 1)%nat with 0%nat by lia. reflexivity.
Qed.

(** ** Constant yields, end to end *)

(** On binary64: pricing maps equal yields to equal prices, whatever the
    library's [pow] returns. *)

Lemma for_each_invariant {A S} (P : S -> Prop) (body : A -> S -> result S)
    (l : list A) (s s' : S) :
  P s -> (forall x s0 s1, P s0 -> body x s0 = Ok s1 -> P s1) ->
  for_each body l s = Ok s' -> P s'.
Proof.
  revert s. induction l as [|x l IH]; intros s Hs Hstep; simpl.
  - by intros [= <-].
  - intros H. apply bind_Ok in H as (s1 & Hs1 & H).
    apply (IH s1); [by apply (Hstep x s) | done | done].
Qed.

Lemma traverse_constant (f : float -> result float) (v p : float)
    (rest ps : list float) :
  forallb (fun v' => Leibniz.eqb v' v) rest = true ->
  f v = Ok p -> traverse f rest = Ok ps ->
  forallb (fun p' => Leibniz.eqb p' p) ps = true.
Proof.
  revert ps. induction rest as [|v' rest IH]; intros ps Hrest Hv; simpl.
  - by intros [= <-].
  - simpl in Hrest. apply andb_true_iff in Hrest as [Hv' Hrest].
    apply Leibniz.eqb_spec in Hv' as ->. rewrite Hv. simpl.
    intros H. apply bind_Ok in H as (ps' & Hps' & [= <-]). simpl.
    apply andb_true_iff. split; [by apply Leibniz.eqb_spec|].
    by apply IH.
Qed.

Lemma traverse_constant_series (f : float -> result float)
    (ys ps : list float) :
  Binary64.constant_series ys = true -> traverse f ys = Ok ps ->
  Binary64.constant_series ps = true.
Proof.
  destruct ys as [|v rest]; simpl.
  - by intros _ [= <-].
  - intros Hrest H. apply bind_Ok in H as (p & Hp & H).
    apply bind_Ok in H as (ps' & Hps' & [= <-]). simpl.
    by apply (traverse_constant f v p rest).
Qed.

Lemma forallb_setitem {V} (Q : string * V -> bool) (d : dict string V)
    (k : string) (v : V) :
  forallb Q d = true -> Q (k, v) = true -> forallb Q (setitem d k v) = true.
Proof.
  intros Hd Hkv. induction d as [|[k' v'] d IH]; simpl; [by rewrite Hkv|].
  simpl in Hd. apply andb_true_iff in Hd as [Hk' Hd].
  destruct (decide (k = k')); simpl.
  - by rewrite Hkv.
  - rewrite Hk'. by apply IH.
Qed.

Lemma prices_df_constant_binary64 {I} (libm_pow : float -> float -> float)
    (yields_df prices : DataFrame I float) :
  Binary64.constant_columns yields_df = true ->
  Binary64.prices_df libm_pow yields_df = Ok prices ->
  Binary64.constant_columns prices = true.
Proof.
  intros Hconst. unfold Binary64.prices_df.
  apply (for_each_invariant
           (fun df => Binary64.constant_columns df = true)); [done|].
  intros col df df' Hdf Hbody.
  apply bind_Ok in Hbody as (ys & Hys & Hbody).
  apply bind_Ok in Hbody as (ps & Hps & [= <-]).
  unfold Binary64.constant_columns. simpl.
  apply forallb_setitem; [exact Hdf|]. simpl.
  eapply (traverse_constant_series _ ys); [|exact Hps].
  unfold getitem in Hys.
  destruct (lookup_key col (columns yields_df)) as [ys'|] eqn:Hl; [|done].
  injection Hys as ->. apply lookup_key_elem_of in Hl.
  unfold Binary64.constant_columns in Hconst.
  rewrite forallb_forall in Hconst.
  apply list_elem_of_In in Hl. exact (Hconst _ Hl).
Qed.




(** ** Faults of the simulation *)

(** The loop on numpy scalars has no division that can raise: whatever the
    prices, it can only fail to find a row or a label. *)

Lemma olf_Ok {A} (a : A) : Binary64.only_lookup_faults (Ok a).
Proof. by intros e [=]. Qed.

Lemma olf_bind {A B} (m : result A) (k : A -> result B) :
  Binary64.only_lookup_faults m ->
  (forall a, m = Ok a -> Binary64.only_lookup_faults (k a)) ->
  Binary64.only_lookup_faults (bind m k).
Proof.
  intros Hm Hk. destruct m as [a|e]; simpl; [by apply Hk|].
  intros e' [= <-]. by apply Hm.
Qed.

Lemma olf_traverse {A B} (f : A -> result B) (l : list A) :
  (forall x, x ∈ l -> Binary64.only_lookup_faults (f x)) ->
  Binary64.only_lookup_faults (traverse f l).
Proof.
  induction l as [|x l IH]; intros Hf; simpl; [apply olf_Ok|].
  apply olf_bind; [apply Hf; by left|]. intros y _.
  apply olf_bind; [|intros; apply olf_Ok].
  apply IH. intros x' Hx'. apply Hf. by right.
Qed.

Lemma olf_for_each {A S} (body : A -> S -> result S) (l : list A) (s : S) :
  (forall x s, x ∈ l -> Binary64.only_lookup_faults (body x s)) ->
  Binary64.only_lookup_faults (for_each body l s).
Proof.
  revert s. induction l as [|x l IH]; intros s Hbody; simpl; [apply olf_Ok|].
  apply olf_bind; [apply Hbody; by left|]. intros s' _.
  apply IH. intros x' s'' Hx'. apply Hbody. by right.
Qed.

Lemma olf_getitem {V} (d : dict string V) (k : string) :
  Binary64.only_lookup_faults (getitem d k).
Proof.
  unfold getitem. destruct (lookup_key k d); [apply olf_Ok|].
  intros e [= <-]. by left.
Qed.

Lemma olf_iloc {I A} (df : DataFrame I A) (i : nat) :
  Binary64.only_lookup_faults (iloc df i).
Proof.
  unfold iloc. case_decide; [|intros e [= <-]; by right].
  apply olf_traverse. intros [col vs] _.
  destruct (vs !! i); [apply olf_Ok|]. intros e [= <-]. by right.
Qed.

Lemma olf_sum_of {A} (term : A -> result float) (l : list A) :
  (forall x, x ∈ l -> Binary64.only_lookup_faults (term x)) ->
  Binary64.only_lookup_faults (Binary64.sum_of term l).
Proof.
  intros Hterm. unfold Binary64.sum_of. apply olf_for_each. intros x acc Hx.
  apply olf_bind; [by apply Hterm | intros; apply olf_Ok].
Qed.

Lemma olf_dict_comp {V} (value : string -> result V) (ks : list string) :
  (forall k, k ∈ ks -> Binary64.only_lookup_faults (value k)) ->
  Binary64.only_lookup_faults (dict_comp value ks).
Proof.
  intros Hv. unfold dict_comp. apply olf_traverse. intros k Hk.
  apply olf_bind; [by apply Hv | intros; apply olf_Ok].
Qed.

Ltac lookups :=
  repeat first
    [ apply olf_Ok | apply olf_getitem | apply olf_iloc
    | apply olf_bind; [|intros ? _]
    | apply olf_dict_comp; intros ? _
    | apply olf_sum_of; intros ? _ ].

Lemma olf_iteration {I} (prices : DataFrame I float)
    (weights : dict string float) (i : nat) (st : Binary64.state) :
  Binary64.only_lookup_faults (Binary64.iteration prices weights i st).
Proof.
  unfold Binary64.iteration, Binary64.market_value.
  apply olf_bind; [apply olf_iloc|]. intros prev _.
  apply olf_bind; [apply olf_iloc|]. intros curr _.
  apply olf_bind; [destruct (is_empty _); lookups|]. intros held _.
  lookups.
Qed.

Lemma olf_simulate {I} (prices : DataFrame I float)
    (weights : dict string float) (transaction_cost : float) :
  Binary64.only_lookup_faults
    (Binary64.simulate_bond_index prices weights transaction_cost).
Proof.
  unfold Binary64.simulate_bond_index, Binary64.run_upto.
  apply olf_bind; [|intros; apply olf_Ok].
  apply olf_for_each. intros i st _. unfold Binary64.loop_body.
  apply olf_bind; [apply olf_iteration|]. intros [[v nh] t] _. apply olf_Ok.
Qed.




(** ** The benchmark index *)

Section Benchmark.
Context {I : Type} `{EqDecision I}.
Implicit Types (s : Series I Qc).

Lemma pct_change_from_returns s (before : Qc) :
  before <> 0 -> Forall (fun tp => tp.2 <> 0) s ->
  pct_change_from before s
  = Ok (map (fun '(t, r) => (t, Some r)) (returns_from before s)).
Proof.
  revert before. induction s as [|[t p] s IH]; intros before Hb Hs; [done|].
  apply Forall_cons in Hs as [Hp Hs]. simpl in Hp.
  simpl. rewrite div_nonzero by done. simpl.
  by rewrite (IH p Hp Hs).
Qed.

Lemma dropna_series_Some s :
  dropna_series (map (fun '(t, r) => (t, Some r)) s) = s.
Proof. induction s as [|[t r] s IH]; simpl; [done | by rewrite IH]. Qed.

Lemma sp500_returns_spec (t : I) (p : Qc) s :
  Forall (fun tp => tp.2 <> 0) ((t, p) :: s) ->
  sp500_returns ((t, p) :: s) = Ok (returns_from p s).
Proof.
  intros Hs. apply Forall_cons in Hs as [Hp Hs]. simpl in Hp.
  unfold sp500_returns. simpl.
  rewrite pct_change_from_returns by done. simpl.
  by rewrite dropna_series_Some.
Qed.

Lemma loc_suffix s s' :
  (forall k v, (k, v) ∈ s' -> lookup_key k s = Some v) ->
  loc s (keys s') = Ok s'.
Proof.
  unfold loc, dict_comp.
  induction s' as [|[k v] s' IH]; intros Hin; simpl; [done|].
  unfold getitem at 1. rewrite (Hin k v) by left. simpl.
  rewrite IH; [done|]. intros k' v' Hin'. apply Hin. by right.
Qed.

Lemma loc_self s : NoDup (keys s) -> loc s (keys s) = Ok s.
Proof.
  intros Hnd. apply loc_suffix. intros k v Hin. by apply lookup_key_NoDup.
Qed.

Lemma cumprod_from_one s : cumprod s = cumprod_from 1 s.
Proof. destruct s as [|[t x] s]; simpl; [done|]. by rewrite Qcmult_1_l. Qed.

Lemma keys_returns_from s (before : Qc) : keys (returns_from before s) = keys s.
Proof.
  revert before. induction s as [|[t p] s IH]; intros before; simpl;
    [done | by rewrite IH].
Qed.

Lemma keys_cumprod_from s (acc : Qc) : keys (cumprod_from acc s) = keys s.
Proof.
  revert acc. induction s as [|[t p] s IH]; intros acc; simpl;
    [done | by rewrite IH].
Qed.

Lemma keys_map_values (f : Qc -> Qc) s :
  keys (map (fun '(t, x) => (t, f x)) s) = keys s.
Proof. induction s as [|[t p] s IH]; simpl; [done | by rewrite IH]. Qed.

Lemma keys_benchmark_of (t : I) (p : Qc) s :
  keys (benchmark_of ((t, p) :: s)) = keys s.
Proof.
  unfold benchmark_of.
  rewrite (keys_map_values (fun g => g * initial_investment)).
  rewrite cumprod_from_one, keys_cumprod_from.
  rewrite (keys_map_values (fun r => 1 + r)). apply keys_returns_from.
Qed.

Lemma sp500_index_spec s (prices_index : list I) :
  keys s = prices_index -> NoDup prices_index ->
  Forall (fun tp => tp.2 <> 0) s ->
  sp500_index s prices_index = Ok (benchmark_of s).
Proof.
  intros Hkeys Hnd Hs. destruct s as [|[t p] s].
  { simpl in Hkeys. by subst. }
  unfold sp500_index. rewrite sp500_returns_spec by done. simpl.
  subst prices_index. simpl in Hnd. apply NoDup_cons in Hnd as [_ Hnd].
  pose proof (loc_self (benchmark_of ((t, p) :: s))) as Hloc.
  rewrite keys_benchmark_of in Hloc. exact (Hloc Hnd).
Qed.

Lemma Qcprod_seq_S (f : nat -> Qc) (offset n : nat) :
  Qcprod (map f (seq offset (S n)))
  = f offset * Qcprod (map f (seq (S offset) n)).
Proof. reflexivity. Qed.

Lemma cumprod_from_lookup s (acc before : Qc) (p : nat -> Qc) (offset : nat) :
  (1 <= offset)%nat -> before = p (offset - 1)%nat ->
  (forall j t v, s !! j = Some (t, v) -> v = p (offset + j)%nat) ->
  forall j t v, s !! j = Some (t, v) ->
    cumprod_from acc (map (fun '(t, r) => (t, 1 + r)) (returns_from before s))
      !! j
    = Some (t, acc * Qcprod (map (fun i => 1 + spec_return p i)
                               (seq offset (S j)))).
Proof.
  revert acc before offset.
  induction s as [|[t0 p0] s IH]; intros acc before offset Hoff Hbefore Hp j t v;
    [done|].
  assert (p0 = p offset) as Hp0.
  { rewrite (Hp 0%nat t0 p0 eq_refl). f_equal. lia. }
  assert (1 + (p0 / before - 1) = 1 + spec_return p offset) as Hg.
  { unfold spec_return. by rewrite <- Hbefore, <- Hp0. }
  rewrite Qcprod_seq_S.
  destruct j as [|j].
  - intros [= -> ->]. simpl. rewrite Hg. do 2 f_equal.
    change (Qcprod []) with (Q2Qc 1). ring.
  - intros Hj. etrans.
    { eapply (IH (acc * (1 + (p0 / before - 1))) p0 (S offset));
        [lia | rewrite Hp0; f_equal; lia | | exact Hj].
      intros j' t' v' Hj'. rewrite (Hp (S j') t' v' Hj'). f_equal. lia. }
    rewrite Hg. do 2 f_equal. ring.
Qed.
End Benchmark.

Lemma lookup_map {A B} (f : A -> B) (l : list A) (i : nat) :
  map f l !! i = f <$> l !! i.
Proof. apply list_lookup_fmap. Qed.

(** C7: on a benchmark series of n >= 2 nonzero closes, labelled like the
    price table by distinct dates, the normalizer returns n-1 values, dated by
    the price dates after the first; its k-th value is the initial capital
    times the product over j = 1..k of (1 + r_j), with r_j = p_j/p_(j-1) - 1,
    and its first value is the initial capital times (1 + r_1). *)
Theorem benchmark_index_compounds_returns {I} `{EqDecision I}
    (sp500 : Series I Qc) (prices_index : list I) (n : nat) :
  keys sp500 = prices_index -> NoDup prices_index ->
  length sp500 = n -> (2 <= n)%nat ->
  Forall (fun tp => tp.2 <> 0) sp500 ->
  exists out,
    sp500_index sp500 prices_index = Ok out /\
    length out = (n - 1)%nat /\
    (forall k, (1 <= k)%nat -> (k <= n - 1)%nat ->
       exists t,
         prices_index !! k = Some t /\
         out !! (k - 1)%nat
         = Some (t, spec_benchmark initial_investment (value_at sp500) k)) /\
    (exists t,
       out !! 0%nat
       = Some (t, initial_investment * (1 + spec_return (value_at sp500) 1))).
Proof.
  intros Hkeys Hnd Hlen Hn Hnz.
  exists (benchmark_of sp500). split; [by apply sp500_index_spec|].
  destruct sp500 as [|[t0 p0] rest]; [simpl in Hlen; lia|].
  assert (length (benchmark_of ((t0, p0) :: rest)) = (n - 1)%nat) as Hout.
  { rewrite <- (length_map fst). change (map fst ?l) with (keys l).
    rewrite keys_benchmark_of. unfold keys. rewrite length_map.
    simpl in Hlen. lia. }
  assert (forall k, (1 <= k)%nat -> (k <= n - 1)%nat ->
            exists t,
              prices_index !! k = Some t /\
              benchmark_of ((t0, p0) :: rest) !! (k - 1)%nat
              = Some (t, spec_benchmark initial_investment
                           (value_at ((t0, p0) :: rest)) k)) as Hk.
  { intros k Hk1 Hk. destruct k as [|j]; [lia|].
    replace (S j - 1)%nat with j by lia.
    destruct (lookup_lt_is_Some_2 rest j) as [[t v] Hj];
      [simpl in Hlen; lia|].
    exists t. split.
    { rewrite <- Hkeys. unfold keys. simpl.
      change (map fst rest !! j = Some t).
      by rewrite lookup_map, Hj. }
    unfold benchmark_of. rewrite lookup_map, cumprod_from_one.
    rewrite (cumprod_from_lookup rest 1 p0 (value_at ((t0, p0) :: rest)) 1
               ltac:(lia) eq_refl) with (t := t) (v := v); [| |done].
    - unfold spec_benchmark. rewrite !Qcprod_seq_S. simpl. do 2 f_equal. ring.
    - intros j' t' v' Hj'. unfold value_at. simpl. by rewrite Hj'. }
  split; [done|]. split; [done|].
  destruct (Hk 1%nat ltac:(lia) ltac:(lia)) as (t & _ & Ht).
  exists t. change (1 - 1)%nat with 0%nat in Ht. rewrite Ht. do 2 f_equal.
  unfold spec_benchmark. rewrite Qcprod_seq_S.
  change (Qcprod (map _ (seq 2 0))) with (Q2Qc 1). ring.
Qed.

Lemma benchmark_index_compounds_returns_witness :
  exists out,
    sp500_index three_closes [0; 1; 2]%nat = Ok out /\
    length out = (3 - 1)%nat /\
    (forall k, (1 <= k)%nat -> (k <= 3 - 1)%nat ->
       exists t,
         [0; 1; 2]%nat !! k = Some t /\
         out !! (k - 1)%nat
         = Some (t, spec_benchmark initial_investment (value_at three_closes) k)) /\
    (exists t,
       out !! 0%nat
       = Some (t, initial_investment * (1 + spec_return (value_at three_closes) 1))).
Proof.
  apply (benchmark_index_compounds_returns three_closes [0; 1; 2]%nat 3).
  - reflexivity.
  - apply (bool_decide_unpack _). vm_compute. exact I.
  - reflexivity.
  - lia.
  - apply (bool_decide_unpack _). vm_compute. exact I.
Defined.

Example three_closes_index :
  sp500_index three_closes [0; 1; 2]%nat
  = Ok [(1%nat, Qc_of_Z 1100); (2%nat, Qc_of_Z 990)].
Proof. evaluate. Qed.

(** ** Monthly resampling *)

Lemma observed_nonempty (stamps : list Timestamp) (vs : list (option Qc))
    (m : nat) :
  observed stamps vs m <> [] <->
  exists i t x,
    stamps !! i = Some t /\ month_of t = m /\ vs !! i = Some (Some x).
Proof.
  revert vs. induction stamps as [|t stamps IH]; intros vs.
  { simpl. split; [done|]. by intros (i & t & x & Ht & _). }
  destruct vs as [|v vs].
  { simpl. split; [done|]. by intros (i & t' & x & _ & _ & Hv). }
  assert ((exists i t' x, stamps !! i = Some t' /\ month_of t' = m /\
                          vs !! i = Some (Some x)) ->
          exists i t' x, (t :: stamps) !! i = Some t' /\ month_of t' = m /\
                         (v :: vs) !! i = Some (Some x)) as Hlater.
  { intros (i & t' & x & ? & ? & ?). by exists (S i), t', x. }
  assert (forall i t' x,
            (t :: stamps) !! S i = Some t' -> month_of t' = m ->
            (v :: vs) !! S i = Some (Some x) ->
            observed stamps vs m <> []) as Hearlier.
  { intros i t' x ? ? ?. apply IH. by exists i, t', x. }
  simpl. destruct v as [x|].
  - destruct (decide (month_of t = m)) as [Hm|Hm].
    + split; [|done]. intros _. by exists 0%nat, t, x.
    + split; [intros H; by apply Hlater, IH|].
      intros ([|i] & t' & x' & Ht & Hmt & Hv); [|by eapply Hearlier].
      simpl in Ht. by injection Ht as <-.
  - split; [intros H; by apply Hlater, IH|].
    intros ([|i] & t' & x' & Ht & Hmt & Hv); [done | by eapply Hearlier].
Qed.

Lemma mean_is_Some (xs : list Qc) : is_Some (mean xs) <-> xs <> [].
Proof.
  destruct xs as [|x xs]; simpl.
  - split; [by intros [? ?] | done].
  - split; [done | by eexists].
Qed.

Lemma foldr_min_le (a : nat) (l : list nat) :
  (foldr Nat.min a l <= a)%nat /\
  forall x, x ∈ l -> (foldr Nat.min a l <= x)%nat.
Proof.
  induction l as [|y l [IHa IHl]]; simpl.
  - split; [lia|]. intros x Hx. by apply elem_of_nil in Hx.
  - split; [lia|]. intros x Hx.
    apply elem_of_cons in Hx as [->|Hx]; [lia|].
    specialize (IHl x Hx). lia.
Qed.

Lemma foldr_max_ge (a : nat) (l : list nat) :
  (a <= foldr Nat.max a l)%nat /\
  forall x, x ∈ l -> (x <= foldr Nat.max a l)%nat.
Proof.
  induction l as [|y l [IHa IHl]]; simpl.
  - split; [lia|]. intros x Hx. by apply elem_of_nil in Hx.
  - split; [lia|]. intros x Hx.
    apply elem_of_cons in Hx as [->|Hx]; [lia|].
    specialize (IHl x Hx). lia.
Qed.

Lemma month_bins_covers (stamps : list Timestamp) (t : Timestamp) :
  t ∈ stamps -> month_of t ∈ month_bins stamps.
Proof.
  destruct stamps as [|t0 rest]; intros Ht; [by apply elem_of_nil in Ht|].
  unfold month_bins.
  destruct (foldr_min_le (month_of t0) (map month_of rest)) as [Hlo0 Hlo].
  destruct (foldr_max_ge (month_of t0) (map month_of rest)) as [Hhi0 Hhi].
  apply list_elem_of_In, in_seq.
  apply elem_of_cons in Ht as [->|Ht]; [lia|].
  assert (month_of t ∈ map month_of rest) as Hin.
  { apply list_elem_of_fmap. by exists t. }
  specialize (Hlo _ Hin). specialize (Hhi _ Hin). lia.
Qed.

Lemma elem_of_select {A} (mask : list bool) (l : list A) (x : A) :
  x ∈ select mask l <->
  exists j, mask !! j = Some true /\ l !! j = Some x.
Proof.
  revert l. induction mask as [|b mask IH]; intros l.
  { simpl. split; [intros H; by apply elem_of_nil in H|].
    by intros (j & Hj & _). }
  destruct l as [|y l].
  { simpl. split; [intros H; by apply elem_of_nil in H|].
    by intros (j & _ & Hj). }
  simpl. destruct b.
  - rewrite elem_of_cons, IH. split.
    + intros [->|(j & ? & ?)]; [by exists 0%nat | by exists (S j)].
    + intros ([|j] & Hm & Hl); [left; by injection Hl | right; by exists j].
  - rewrite IH. split.
    + intros (j & ? & ?). by exists (S j).
    + intros ([|j] & Hm & Hl); [done | by exists j].
Qed.

Lemma select_length {A B} (mask : list bool) (l1 : list A) (l2 : list B) :
  length l1 = length l2 ->
  length (select mask l1) = length (select mask l2).
Proof.
  revert l1 l2. induction mask as [|b mask IH]; intros l1 l2 Hlen; [done|].
  destruct l1 as [|x l1], l2 as [|y l2]; simpl in *; try done.
  destruct b; simpl; [f_equal|]; apply IH; lia.
Qed.

Lemma complete_row_spec {I} (df : DataFrame I (option Qc)) (i : nat) :
  complete_row df i = true <->
  forall c, c ∈ columns df -> exists x, c.2 !! i = Some (Some x).
Proof.
  unfold complete_row. rewrite forallb_forall. split.
  - intros H [col vs] Hc. apply list_elem_of_In in Hc.
    specialize (H _ Hc). simpl in *.
    destruct (vs !! i) as [[x|]|]; [by eexists | done | done].
  - intros H [col vs] Hc. apply list_elem_of_In in Hc.
    destruct (H _ Hc) as [x Hx]. simpl in Hx. by rewrite Hx.
Qed.

Lemma keep_mask_lookup {I} (df : DataFrame I (option Qc)) (j : nat) :
  map (complete_row df) (seq 0 (len df)) !! j = Some true <->
  (j < len df)%nat /\ complete_row df j = true.
Proof.
  rewrite lookup_map. split.
  - intros H. destruct (seq 0 (len df) !! j) as [j'|] eqn:Hj; [|done].
    apply lookup_seq in Hj as [-> Hj]. simpl in H. by injection H.
  - intros [Hj Hc]. rewrite (lookup_seq_lt _ _ _ Hj). simpl. by rewrite Hc.
Qed.

Section Resample.
Variable df : DataFrame Timestamp (option Qc).

Abbreviation bins := (month_bins (index df)).
Abbreviation monthly_mean vs :=
  (map (fun m => mean (observed (index df) vs m)) bins).

Lemma resample_mean_columns (c : string * list (option Qc)) :
  c ∈ columns (resample_mean df) <->
  exists col vs, (col, vs) ∈ columns df /\ c = (col, monthly_mean vs).
Proof.
  unfold resample_mean. simpl. rewrite list_elem_of_fmap. split.
  - intros ([col vs] & -> & Hin). by exists col, vs.
  - intros (col & vs & Hin & ->). by exists (col, vs).
Qed.

Lemma resample_complete (j m : nat) :
  bins !! j = Some m ->
  complete_row (resample_mean df) j = true <->
  forall col vs, (col, vs) ∈ columns df -> observed (index df) vs m <> [].
Proof.
  intros Hj. rewrite complete_row_spec. split.
  - intros H col vs Hin.
    destruct (H (col, monthly_mean vs)) as [x Hx].
    { apply resample_mean_columns. by exists col, vs. }
    simpl in Hx. rewrite lookup_map, Hj in Hx. simpl in Hx.
    apply mean_is_Some. injection Hx as ->. by eexists.
  - intros H c Hc. apply resample_mean_columns in Hc as (col & vs & Hin & ->).
    simpl. rewrite lookup_map, Hj. simpl.
    destruct (proj2 (mean_is_Some _) (H col vs Hin)) as [x ->]. by eexists.
Qed.

Lemma resampled_month (m : nat) :
  columns df <> [] ->
  m ∈ index (resampled_yields df) <->
  forall col vs, (col, vs) ∈ columns df ->
    exists i t x,
      index df !! i = Some t /\ month_of t = m /\ vs !! i = Some (Some x).
Proof.
  intros Hcols. unfold resampled_yields, dropna. simpl.
  rewrite elem_of_select. split.
  - intros (j & Hkeep & Hj) col vs Hin.
    apply keep_mask_lookup in Hkeep as [_ Hrow].
    apply observed_nonempty.
    by apply (proj1 (resample_complete j m Hj) Hrow col vs).
  - intros Hobs.
    destruct (columns df) as [|[col0 vs0] cols] eqn:Hdf; [done|].
    destruct (Hobs col0 vs0) as (i & t & x & Ht & Hm & _); [by left|].
    assert (m ∈ bins) as Hbin.
    { rewrite <- Hm. apply month_bins_covers.
      by apply list_elem_of_lookup_2 with i. }
    apply list_elem_of_lookup in Hbin as [j Hj]. exists j. split; [|done].
    apply keep_mask_lookup. split.
    { by apply lookup_lt_Some in Hj. }
    apply (proj2 (resample_complete j m Hj)). rewrite Hdf.
    intros col vs Hin. apply observed_nonempty. exact (Hobs col vs Hin).
Qed.

Lemma resampled_no_nulls (c : string * list (option Qc)) :
  c ∈ columns (resampled_yields df) ->
  length c.2 = len (resampled_yields df) /\ Forall is_Some c.2.
Proof.
  unfold resampled_yields, dropna. simpl. intros Hc.
  apply list_elem_of_fmap in Hc as ([col vs'] & -> & Hin). simpl.
  pose proof Hin as Hin'.
  apply resample_mean_columns in Hin' as (col' & vs & _ & [= -> ->]).
  split.
  - unfold len. simpl. apply select_length. by rewrite length_map.
  - apply Forall_forall. intros v Hv.
    apply elem_of_select in Hv as (j & Hkeep & Hv).
    apply keep_mask_lookup in Hkeep as [_ Hrow].
    rewrite complete_row_spec in Hrow.
    destruct (Hrow _ Hin) as [x Hx]. simpl in Hx.
    rewrite Hx in Hv. injection Hv as <-. by eexists.
Qed.
End Resample.

(** *** Calendar order *)

Lemma date_le_total (t1 t2 : Timestamp) :
  date_le t1 t2 = false -> date_le t2 t1 = true.
Proof.
  unfold date_le. intros H.
  apply orb_false_iff in H as [Hlt H]. apply Nat.ltb_ge in Hlt.
  apply orb_true_iff.
  destruct (decide (month_of t2 < month_of t1)%nat) as [Hm|Hm].
  - left. by apply Nat.ltb_lt.
  - right. assert (month_of t1 = month_of t2) as Heq by lia.
    rewrite Heq, Nat.eqb_refl in H. simpl in H. apply Nat.leb_gt in H.
    rewrite Heq, Nat.eqb_refl. simpl. apply Nat.leb_le. lia.
Qed.

Lemma date_le_trans (t1 t2 t3 : Timestamp) :
  date_le t1 t2 = true -> date_le t2 t3 = true -> date_le t1 t3 = true.
Proof.
  unfold date_le. rewrite !orb_true_iff, !andb_true_iff.
  rewrite !Nat.ltb_lt, !Nat.eqb_eq, !Nat.leb_le. lia.
Qed.

Lemma date_le_same_month (t1 t2 : Timestamp) :
  date_le t1 t2 = true -> month_of t1 = month_of t2 ->
  (day_of t1 <= day_of t2)%nat.
Proof.
  unfold date_le. rewrite orb_true_iff, andb_true_iff.
  rewrite Nat.ltb_lt, Nat.eqb_eq, Nat.leb_le. lia.
Qed.

Lemma insert_by_date_perm {A} (x : Timestamp * A) (s : Series Timestamp A) :
  insert_by_date x s ≡ₚ x :: s.
Proof.
  induction s as [|y s IH]; simpl; [done|].
  destruct (date_le x.1 y.1); [done|].
  rewrite IH. apply Permutation_swap.
Qed.

Lemma sort_index_perm {A} (s : Series Timestamp A) : sort_index s ≡ₚ s.
Proof.
  induction s as [|x s IH]; simpl; [done|].
  fold (sort_index s). by rewrite insert_by_date_perm, IH.
Qed.

Lemma insert_by_date_sorted {A} (x : Timestamp * A) (s : Series Timestamp A) :
  StronglySorted by_date s -> StronglySorted by_date (insert_by_date x s).
Proof.
  induction 1 as [|y s Hs IH Hy]; simpl.
  - repeat constructor.
  - destruct (date_le x.1 y.1) eqn:Hxy.
    + constructor; [by constructor|]. constructor; [done|].
      eapply Forall_impl; [exact Hy|]. intros z Hz.
      by apply (date_le_trans _ y.1).
    + constructor; [done|]. rewrite insert_by_date_perm.
      constructor; [|done]. by apply date_le_total.
Qed.

Lemma sort_index_sorted {A} (s : Series Timestamp A) :
  StronglySorted by_date (sort_index s).
Proof.
  induction s as [|x s IH]; simpl; [constructor|].
  by apply insert_by_date_sorted.
Qed.

Lemma sorted_lookup {A} (s : Series Timestamp A) (i j : nat)
    (a b : Timestamp * A) :
  StronglySorted by_date s -> (i < j)%nat ->
  s !! i = Some a -> s !! j = Some b -> by_date a b.
Proof.
  intros Hs. revert i j. induction Hs as [|y s Hs IH Hy]; intros i j Hij Ha Hb;
    [done|].
  destruct j as [|j]; [lia|]. simpl in Hb. destruct i as [|i].
  - simpl in Ha. injection Ha as <-. rewrite Forall_forall in Hy.
    apply Hy. by apply list_elem_of_lookup_2 with j.
  - simpl in Ha. apply (IH i j); [lia | done | done].
Qed.

(** The last observation of a month in a series: an entry of that month
    holding a value, after which no entry of the month holds one. *)
Lemma last_observed (s : Series Timestamp (option Qc)) (m : nat) (x : Qc) :
  last (observed (map fst s) (map snd s) m) = Some x ->
  exists i t,
    s !! i = Some (t, Some x) /\ month_of t = m /\
    forall j t' x', (i < j)%nat -> s !! j = Some (t', Some x') ->
                    month_of t' <> m.
Proof.
  induction s as [|[t0 v0] s IH]; [done|]. simpl.
  assert (last (observed (map fst s) (map snd s) m) = Some x ->
          exists i t,
            ((t0, v0) :: s) !! i = Some (t, Some x) /\ month_of t = m /\
            forall j t' x', (i < j)%nat ->
              ((t0, v0) :: s) !! j = Some (t', Some x') -> month_of t' <> m)
    as Hlater.
  { intros H. destruct (IH H) as (i & t & Hi & Hm & Hafter).
    exists (S i), t. split; [done|]. split; [done|].
    intros [|j] t' x' Hj Hl; [lia|]. apply (Hafter j t' x'); [lia | done]. }
  destruct v0 as [x0|]; [|done].
  destruct (decide (month_of t0 = m)) as [Hm0|Hm0]; [|done].
  rewrite last_cons.
  destruct (last (observed (map fst s) (map snd s) m)) as [y|] eqn:Hl.
  - intros [= ->]. by apply Hlater.
  - intros [= ->]. exists 0%nat, t0. split; [done|]. split; [done|].
    intros [|j] t' x' Hj Hs Hm'; [lia|]. simpl in Hs.
    apply last_None in Hl.
    assert (observed (map fst s) (map snd s) m <> []) as Hne; [|done].
    apply observed_nonempty. exists j, t', x'.
    rewrite !list_lookup_fmap, Hs. done.
Qed.

Lemma last_observed_latest (s : Series Timestamp (option Qc)) (m : nat)
    (x : Qc) :
  last (observed (map fst (sort_index s)) (map snd (sort_index s)) m)
  = Some x ->
  exists t,
    (t, Some x) ∈ s /\ month_of t = m /\
    forall t' x', (t', Some x') ∈ s -> month_of t' = m ->
                  (day_of t' <= day_of t)%nat.
Proof.
  intros H. apply last_observed in H as (i & t & Hi & Hm & Hafter).
  exists t. split; [|split; [done|]].
  - rewrite <- (sort_index_perm s). by apply list_elem_of_lookup_2 with i.
  - intros t' x' Hin Hm'. rewrite <- (sort_index_perm s) in Hin.
    apply list_elem_of_lookup in Hin as [j Hj].
    destruct (Nat.lt_total j i) as [Hlt|[->|Hgt]].
    + apply date_le_same_month; [|congruence].
      exact (sorted_lookup (sort_index s) j i _ _ (sort_index_sorted s)
               Hlt Hj Hi).
    + rewrite Hi in Hj. by injection Hj as <- _.
    + by destruct (Hafter j t' x' Hgt Hj).
Qed.

Lemma last_observed_none (s : Series Timestamp (option Qc)) (m : nat) :
  last (observed (map fst (sort_index s)) (map snd (sort_index s)) m) = None ->
  forall t x, (t, Some x) ∈ s -> month_of t <> m.
Proof.
  intros H t x Hin Hm. apply last_None in H.
  assert (observed (map fst (sort_index s)) (map snd (sort_index s)) m <> [])
    as Hne; [|done].
  rewrite <- (sort_index_perm s) in Hin.
  apply list_elem_of_lookup in Hin as [j Hj].
  apply observed_nonempty. exists j, t, x.
  rewrite !list_lookup_fmap, Hj. done.
Qed.

(** Entries kept by a mask sit at the same place in every list the mask is
    applied to. *)
Lemma select_lookup {A B} (mask : list bool) (l1 : list A) (l2 : list B)
    (j : nat) (a : A) :
  length l1 = length l2 -> select mask l1 !! j = Some a ->
  exists k,
    mask !! k = Some true /\ l1 !! k = Some a /\
    select mask l2 !! j = l2 !! k.
Proof.
  revert l1 l2 j. induction mask as [|keep mask IH]; intros l1 l2 j Hlen;
    [done|].
  destruct l1 as [|x l1], l2 as [|y l2]; simpl in *; try done.
  assert (length l1 = length l2) as Hlen' by lia.
  destruct keep.
  - destruct j as [|j]; simpl.
    + intros [= <-]. by exists 0%nat.
    + intros H. destruct (IH l1 l2 j Hlen' H) as (k & ? & ? & ?).
      by exists (S k).
  - intros H. destruct (IH l1 l2 j Hlen' H) as (k & ? & ? & ?).
    by exists (S k).
Qed.

Lemma lookup_map_Some {A B} (f : A -> B) (l : list A) (i : nat) (x : A) :
  l !! i = Some x -> map f l !! i = Some (f x).
Proof. intros H. by rewrite lookup_map, H. Qed.

Lemma resampled_column (df : DataFrame Timestamp (option Qc)) (c : nat)
    (col : string) (vs : list (option Qc)) :
  columns df !! c = Some (col, vs) ->
  columns (resampled_yields df) !! c
  = Some (col,
          select (map (complete_row (resample_mean df))
                    (seq 0 (len (resample_mean df))))
            (map (fun m => mean (observed (index df) vs m))
               (month_bins (index df)))).
Proof.
  intros Hc.
  apply (lookup_map_Some
           (fun '(col, vs) =>
              (col, select (map (complete_row (resample_mean df))
                              (seq 0 (len (resample_mean df)))) vs))
           (columns (resample_mean df)) c
           (col, map (fun m => mean (observed (index df) vs m))
                   (month_bins (index df)))).
  exact (lookup_map_Some
           (fun '(col, vs) =>
              (col, map (fun m => mean (observed (index df) vs m))
                      (month_bins (index df))))
           (columns df) c (col, vs) Hc).
Qed.

Lemma resampled_cell (df : DataFrame Timestamp (option Qc)) (col : string)
    (vs : list (option Qc)) (j m : nat) :
  (col, vs) ∈ columns df ->
  index (resampled_yields df) !! j = Some m ->
  exists x xs,
    observed (index df) vs m = x :: xs /\
    select (map (complete_row (resample_mean df))
              (seq 0 (len (resample_mean df))))
      (map (fun m => mean (observed (index df) vs m)) (month_bins (index df)))
      !! j
    = Some (Some (Qcsum (x :: xs) / Qc_of_Z (Z.of_nat (length (x :: xs))))).
Proof.
  intros Hin Hj. unfold resampled_yields, dropna in Hj. simpl in Hj.
  destruct (select_lookup _ (month_bins (index df))
              (map (fun m => mean (observed (index df) vs m))
                 (month_bins (index df))) j m
              ltac:(by rewrite length_map) Hj) as (k & Hkeep & Hk & ->).
  apply keep_mask_lookup in Hkeep as [_ Hrow].
  pose proof (proj1 (resample_complete df k m Hk) Hrow col vs Hin) as Hobs.
  destruct (observed (index df) vs m) as [|x xs] eqn:Hxs; [done|].
  exists x, xs. split; [done|].
  rewrite lookup_map, Hk. simpl. by rewrite Hxs.
Qed.

Lemma aligned_sp500_spec (sp500 : Series Timestamp (option Qc))
    (yields_index : list nat) :
  (forall m, m ∈ yields_index -> m ∈ month_bins (map fst sp500)) ->
  aligned_sp500 sp500 yields_index
  = Ok (tabulate
          (fun m => last (observed (map fst (sort_index sp500))
                            (map snd (sort_index sp500)) m))
          yields_index).
Proof.
  intros Hcov. unfold aligned_sp500, loc, resample_last.
  apply dict_comp_tabulate. intros m Hm.
  apply (getitem_tabulate
           (fun m => last (observed (map fst (sort_index sp500))
                             (map snd (sort_index sp500)) m))).
  by apply Hcov.
Qed.



(** The worked example: the one-year series is observed in months 0 and 1
    (twice in month 0), the five-year series in months 1 and 2; only month 1
    remains, with the means 3 and 5; of the two closes of month 1 the later
    one, 120, is kept, in whichever order they are listed. *)
Example misaligned_yields_resampled :
  resampled_yields misaligned_yields
  = {| index := [1%nat];
       columns := [("1Y", [Some (Qc_of_Z 3)]); ("5Y", [Some (Qc_of_Z 5)])] |}
  /\ aligned_sp500 daily_closes [1%nat] = Ok [(1%nat, Some (Qc_of_Z 120))]
  /\ aligned_sp500 unsorted_closes [1%nat] = Ok [(1%nat, Some (Qc_of_Z 120))].
Proof. split; [|split]; evaluate. Qed.

(** * Further properties of the script *)

(** ** Shape and edge cases of the simulation *)

Lemma run_upto_length {I} (prices : DataFrame I Qc) (weights : dict string Qc)
    (transaction_cost : Qc) (k : nat) (st : state) :
  run_upto prices weights transaction_cost k = Ok st ->
  length (portfolio_values st) = k.
Proof.
  revert st. induction k as [|k IH]; intros st.
  - by intros [= <-].
  - rewrite run_upto_S. intros H. apply bind_Ok in H as (st0 & Hst0 & Hbody).
    unfold loop_body in Hbody.
    apply bind_Ok in Hbody as ([[v nh] t] & _ & [= <-]). simpl.
    rewrite length_app, (IH st0 Hst0). simpl. lia.
Qed.

(** X1: whenever [simulate_bond_index] returns, it returns exactly one value
    per row after the first, whatever the weights, the prices and the cost
    rate. *)
Theorem simulate_bond_index_length {I} (prices : DataFrame I Qc)
    (weights : dict string Qc) (transaction_cost : Qc) (values : list Qc) :
  simulate_bond_index prices weights transaction_cost = Ok values ->
  length values = (len prices - 1)%nat.
Proof.
  unfold simulate_bond_index. intros H.
  apply bind_Ok in H as (st & Hst & [= <-]).
  by apply (run_upto_length prices weights transaction_cost).
Qed.

Lemma simulate_bond_index_length_witness :
  length [Qc_of_Z 1055] = (len two_month_prices - 1)%nat.
Proof.
  apply (simulate_bond_index_length two_month_prices half_three_two 0
           [Qc_of_Z 1055]).
  evaluate.
Defined.

Lemma well_formed_iloc {I A} (df : DataFrame I A) (i : nat) :
  well_formed df = true -> (i < len df)%nat ->
  exists row,
    iloc df i = Ok row /\
    forall col, lookup_key col row = ys ← lookup_key col (columns df); ys !! i.
Proof.
  unfold well_formed. rewrite forallb_forall. intros Hwf Hi.
  apply (cell_lookup df i ""); [|done].
  intros c Hc. apply list_elem_of_In in Hc.
  specialize (Hwf c Hc). by apply bool_decide_eq_true in Hwf.
Qed.

Lemma well_formed_priced_nil {I} (prices : DataFrame I Qc) :
  well_formed prices = true -> priced prices [] = true.
Proof.
  intros Hwf. unfold priced. rewrite forallb_forall. intros i Hi.
  apply in_seq in Hi as [_ Hi]. simpl in Hi.
  by destruct (well_formed_iloc prices i Hwf Hi) as (row & -> & _).
Qed.

Lemma spec_values_no_maturity weight rate price units (i count : nat) :
  spec_values [] weight rate price units i count = replicate count 0.
Proof.
  revert units i. induction count as [|count IH]; intros units i; [done|].
  simpl. rewrite IH. f_equal.
  unfold spec_reported, spec_cost, spec_value, spec_turnover, over_maturities.
  simpl. ring.
Qed.



Lemma traverse_raise_in {A B} (f : A -> result B) (l : list A) (x : A)
    (e : exn) :
  x ∈ l -> f x = Raise e ->
  (forall y e', y ∈ l -> f y = Raise e' -> e' = e) ->
  traverse f l = Raise e.
Proof.
  intros Hx Hfx Honly. induction l as [|y l IH]; [by apply elem_of_nil in Hx|].
  simpl. destruct (f y) as [b|e'] eqn:Hy; simpl.
  - apply elem_of_cons in Hx as [->|Hx]; [congruence|].
    rewrite IH; [done | done |]. intros z e' Hz. apply Honly. by right.
  - f_equal. apply (Honly y); [by left | done].
Qed.

Lemma lookup_key_None {V} (d : dict string V) (k : string) :
  k ∉ keys d -> lookup_key k d = None.
Proof.
  induction d as [|[k' v] d IH]; simpl; [done|]. intros Hk.
  apply not_elem_of_cons in Hk as [Hne Hk].
  destruct (decide (k = k')); [done | by apply IH].
Qed.

(** X3: a weight on a maturity that is not a column of the price table makes
    the simulation stop with a [KeyError] in its first pass, provided the
    table has at least two rows and no weighted maturity is priced at zero in
    the first row. *)
Theorem simulate_bond_index_missing_maturity {I} (prices : DataFrame I Qc)
    (weights : dict string Qc) (transaction_cost : Qc) (b : string) :
  well_formed prices = true -> (2 <= len prices)%nat ->
  b ∈ keys weights -> b ∉ keys (columns prices) ->
  (forall b' p, b' ∈ keys weights -> cell prices 0 b' = Ok p -> p <> 0) ->
  simulate_bond_index prices weights transaction_cost = Raise KeyError.
Proof.
  intros Hwf Hlen Hb Hmissing Hnz.
  destruct (well_formed_iloc prices 0 Hwf) as (prev & Hprev & Hlook0); [lia|].
  destruct (well_formed_iloc prices 1 Hwf) as (curr & Hcurr & _); [lia|].
  unfold simulate_bond_index, run_upto.
  destruct (len prices - 1)%nat as [|k] eqn:Hk; [lia|].
  simpl. unfold loop_body, iteration. simpl. rewrite Hprev, Hcurr. simpl.
  unfold dict_comp.
  rewrite (traverse_raise_in _ _ b KeyError); [done | done | |].
  - rewrite getitem_weight by done. simpl. unfold getitem.
    rewrite Hlook0, (lookup_key_None _ b Hmissing). done.
  - intros b' e Hb' He.
    rewrite getitem_weight in He by done. simpl in He.
    destruct (getitem prev b') as [p|e'] eqn:Hp; simpl in He.
    + rewrite div_nonzero in He; [done|].
      apply (Hnz b' p Hb'). unfold cell. by rewrite Hprev.
    + unfold getitem in Hp. destruct (lookup_key b' prev); [done|].
      by injection Hp as <-; injection He as <-.
Qed.

Lemma simulate_bond_index_missing_maturity_witness :
  simulate_bond_index two_month_prices [("A", decimal 5 1); ("D", decimal 5 1)]
    (decimal 1 3)
  = Raise KeyError.
Proof.
  apply (simulate_bond_index_missing_maturity two_month_prices
           [("A", decimal 5 1); ("D", decimal 5 1)] (decimal 1 3) "D").
  - vm_compute. reflexivity.
  - vm_compute. lia.
  - apply (bool_decide_unpack _). vm_compute. exact I.
  - apply (bool_decide_unpack _). vm_compute. exact I.
  - intros b' p Hb' Hcell. simpl in Hb'.
    apply elem_of_cons in Hb' as [->|Hb'].
    + assert (cell two_month_prices 0 "A" = Ok (Qc_of_Z 100)) as Hc
        by evaluate.
      rewrite Hc in Hcell. by injection Hcell as <-.
    + apply list_elem_of_singleton in Hb' as ->.
      assert (cell two_month_prices 0 "D" = Raise KeyError) as Hc by evaluate.
      by rewrite Hc in Hcell.
Defined.

(** ** The cost rate and the reported values *)

Lemma spec_values_lookup maturities weight rate price capital
    (count k j : nat) :
  (j < count)%nat ->
  spec_values maturities weight rate price
    (spec_units maturities weight price capital k) (S k) count !! j
  = Some (spec_reported maturities weight rate price
            (spec_units maturities weight price capital (k + j))
            (S (k + j))).
Proof.
  revert k j. induction count as [|count IH]; intros k j Hj; [lia|].
  destruct j as [|j].
  - simpl. by rewrite Nat.add_0_r.
  - etrans; [exact (IH (S k) j ltac:(lia))|]. by rewrite Nat.add_succ_r.
Qed.

Lemma simulate_lookup {I} (prices : DataFrame I Qc) (weights : dict string Qc)
    (transaction_cost : Qc) :
  priced prices (keys weights) = true ->
  exists values,
    simulate_bond_index prices weights transaction_cost = Ok values /\
    length values = (len prices - 1)%nat /\
    forall j v, values !! j = Some v ->
      v = spec_value (keys weights) (price_of prices)
            (spec_units (keys weights) (weight_of weights) (price_of prices)
               initial_investment j) (S j)
          - transaction_cost
            * spec_turnover (keys weights) (weight_of weights)
                (price_of prices)
                (spec_units (keys weights) (weight_of weights)
                   (price_of prices) initial_investment j) (S j).
Proof.
  intros Hpriced. eexists. split; [by apply simulate_refines|].
  unfold spec_portfolio. split; [apply spec_values_length|].
  intros j v Hv.
  assert (j < len prices - 1)%nat as Hj.
  { apply lookup_lt_Some in Hv. by rewrite spec_values_length in Hv. }
  change (spec_initial_units (weight_of weights) (price_of prices)
            initial_investment)
    with (spec_units (keys weights) (weight_of weights) (price_of prices)
            initial_investment 0) in Hv.
  rewrite (spec_values_lookup _ _ _ _ _ _ 0 j Hj) in Hv.
  injection Hv as <-. reflexivity.
Qed.

Lemma Qcsum_nonneg {A} (f : A -> Qc) (l : list A) :
  (forall x, x ∈ l -> 0 <= f x) -> 0 <= Qcsum (map f l).
Proof.
  induction l as [|x l IH]; intros Hf; simpl; [apply Qcle_refl|].
  apply Qcplus_nonneg_nonneg; [apply Hf; by left|].
  apply IH. intros y Hy. apply Hf. by right.
Qed.

Lemma positively_priced_row {I} (prices : DataFrame I Qc)
    (bonds : list string) (i : nat) (b : string) :
  positively_priced prices bonds = true -> (i < len prices)%nat ->
  b ∈ bonds -> 0 < price_of prices i b.
Proof.
  unfold positively_priced. rewrite forallb_forall. intros Hpos Hi Hb.
  specialize (Hpos i). rewrite in_seq in Hpos. specialize (Hpos ltac:(lia)).
  unfold price_of, cell. destruct (iloc prices i) as [row|e]; [|done]. simpl.
  unfold positive_row in Hpos. rewrite forallb_forall in Hpos.
  apply list_elem_of_In in Hb. specialize (Hpos b Hb).
  destruct (getitem row b) as [p|e]; [|done].
  by apply bool_decide_eq_true in Hpos.
Qed.

Lemma positively_priced_priced {I} (prices : DataFrame I Qc)
    (bonds : list string) :
  positively_priced prices bonds = true -> priced prices bonds = true.
Proof.
  unfold positively_priced, priced. rewrite !forallb_forall.
  intros Hpos i Hi. specialize (Hpos i Hi).
  destruct (iloc prices i) as [row|e]; [|done].
  unfold positive_row in Hpos. unfold nonzero_row.
  rewrite forallb_forall in Hpos. rewrite forallb_forall.
  intros b Hb. specialize (Hpos b Hb).
  destruct (getitem row b) as [p|e]; [|done].
  apply bool_decide_eq_true in Hpos. apply bool_decide_eq_true_2.
  intros ->. by apply (Qclt_not_eq 0 0).
Qed.



(** ** Labels the benchmark does not carry *)

Lemma loc_missing {K V} `{EqDecision K} (s : Series K V) (labels : list K)
    (t : K) :
  t ∈ labels -> t ∉ keys s -> loc s labels = Raise KeyError.
Proof.
  intros Ht Hs. unfold loc, dict_comp.
  apply (traverse_raise_in _ _ t); [done| |].
  - unfold getitem.
    assert (lookup_key t s = None) as ->; [|done].
    clear -Hs. induction s as [|[k v] s IH]; simpl; [done|].
    apply not_elem_of_cons in Hs as [Hne Hs].
    destruct (decide (t = k)); [done | by apply IH].
  - intros k e _. unfold getitem. destruct (lookup_key k s); [done|].
    by intros [= <-].
Qed.

(** X16: a date of the price table, other than the first, that the benchmark
    series does not carry among its later dates stops the benchmark with a
    [KeyError] (closes nonzero). *)
Theorem benchmark_missing_date {I} `{EqDecision I} (sp500 : Series I Qc)
    (prices_index : list I) (t : I) :
  Forall (fun tp => tp.2 <> 0) sp500 ->
  t ∈ tail prices_index -> t ∉ keys (tail sp500) ->
  sp500_index sp500 prices_index = Raise KeyError.
Proof.
  intros Hnz Ht Hmissing.
  destruct sp500 as [|[t0 p0] rest].
  - unfold sp500_index. simpl. by apply (loc_missing _ _ t).
  - unfold sp500_index. rewrite sp500_returns_spec by done. simpl.
    apply (loc_missing (benchmark_of ((t0, p0) :: rest)) _ t); [done|].
    by rewrite keys_benchmark_of.
Qed.

Lemma benchmark_missing_date_witness :
  sp500_index three_closes [0; 1; 7]%nat = Raise KeyError.
Proof.
  apply (benchmark_missing_date three_closes [0; 1; 7]%nat 7%nat).
  - apply (bool_decide_unpack _). vm_compute. exact I.
  - apply (bool_decide_unpack _). vm_compute. exact I.
  - apply (bool_decide_unpack _). vm_compute. exact I.
Defined.

(** ** Columns and labels the simulation does not read *)

Section Agreement.
Variable maturities : list string.
Variable weight : string -> Qc.
Variable rate : Qc.
Variables price price' : nat -> string -> Qc.

Lemma agree_value (u u' : string -> Qc) (i : nat) :
  (forall b, b ∈ maturities -> u' b = u b) ->
  (forall b, b ∈ maturities -> price' i b = price i b) ->
  spec_value maturities price' u' i = spec_value maturities price u i.
Proof.
  intros Hu Hp. unfold spec_value, over_maturities. apply Qcsum_ext.
  intros b Hb. by rewrite (Hu b Hb), (Hp b Hb).
Qed.

Lemma agree_desired (u u' : string -> Qc) (i : nat) (b : string) :
  (forall b, b ∈ maturities -> u' b = u b) ->
  (forall b, b ∈ maturities -> price' i b = price i b) ->
  b ∈ maturities ->
  spec_desired_units maturities weight price' u' i b
  = spec_desired_units maturities weight price u i b.
Proof.
  intros Hu Hp Hb. unfold spec_desired_units.
  by rewrite (agree_value u u' i Hu Hp), (Hp b Hb).
Qed.

Lemma agree_values (count i : nat) (u u' : string -> Qc) :
  (forall b, b ∈ maturities -> u' b = u b) ->
  (forall j b, (j < i + count)%nat -> b ∈ maturities ->
     price' j b = price j b) ->
  spec_values maturities weight rate price' u' i count
  = spec_values maturities weight rate price u i count.
Proof.
  revert i u u'. induction count as [|count IH]; intros i u u' Hu Hp; [done|].
  assert (forall b, b ∈ maturities -> price' i b = price i b) as Hi.
  { intros b Hb. apply Hp; [lia | done]. }
  simpl. f_equal.
  - unfold spec_reported, spec_cost, spec_turnover, over_maturities.
    rewrite (agree_value u u' i Hu Hi). do 2 f_equal. apply Qcsum_ext.
    intros b Hb.
    by rewrite (agree_desired u u' i b Hu Hi Hb), (Hu b Hb), (Hi b Hb).
  - apply IH.
    + intros b Hb. by apply agree_desired.
    + intros j b Hj Hb. apply Hp; [lia | done].
Qed.
End Agreement.

(** X17: the simulation reads the weighted columns only: two tables of the
    same length that price every weighted maturity alike give the same
    values, whatever their index labels and their other columns. *)
Theorem simulate_bond_index_reads_weighted_columns {I J}
    (prices : DataFrame I Qc) (prices' : DataFrame J Qc)
    (weights : dict string Qc) (transaction_cost : Qc) :
  priced prices (keys weights) = true ->
  priced prices' (keys weights) = true ->
  len prices' = len prices ->
  (forall i b, (i < len prices)%nat -> b ∈ keys weights ->
     cell prices' i b = cell prices i b) ->
  simulate_bond_index prices' weights transaction_cost
  = simulate_bond_index prices weights transaction_cost.
Proof.
  intros Hpriced Hpriced' Hlen Hcells.
  destruct (decide (len prices < 2)%nat) as [Hshort|Hlong].
  { rewrite (simulate_short prices) by done.
    rewrite (simulate_short prices') by lia. done. }
  rewrite (simulate_refines prices') by done.
  rewrite (simulate_refines prices) by done.
  f_equal. unfold spec_portfolio. rewrite Hlen.
  assert (forall j b, (j < len prices)%nat -> b ∈ keys weights ->
            price_of prices' j b = price_of prices j b) as Hsame.
  { intros j b Hj Hb. unfold price_of. by rewrite Hcells. }
  apply agree_values.
  - intros b Hb. unfold spec_initial_units. rewrite Hsame; [done | lia | done].
  - intros j b Hj Hb. apply Hsame; [lia | done].
Qed.

Lemma simulate_bond_index_reads_weighted_columns_witness :
  simulate_bond_index labelled_wide_prices half_three_two (decimal 1 3)
  = simulate_bond_index two_month_prices half_three_two (decimal 1 3).
Proof.
  apply (simulate_bond_index_reads_weighted_columns two_month_prices
           labelled_wide_prices half_three_two (decimal 1 3)).
  - vm_compute. reflexivity.
  - vm_compute. reflexivity.
  - reflexivity.
  - intros i b Hi Hb.
    assert (i = 0 \/ i = 1)%nat as [-> | ->]
      by (change (len two_month_prices) with 2%nat in Hi; lia);
      repeat (apply elem_of_cons in Hb as [-> | Hb]; [evaluate|]);
      by apply elem_of_nil in Hb.
Defined.

(** ** The months of the resampled table *)

Lemma select_seq_above (mask : list bool) (lo n x : nat) :
  x ∈ select mask (seq lo n) -> (lo <= x)%nat.
Proof.
  intros Hx. apply elem_of_select in Hx as (j & _ & Hj).
  apply lookup_seq in Hj. lia.
Qed.

Lemma select_seq_increasing (mask : list bool) (lo n : nat) :
  increasing (select mask (seq lo n)).
Proof.
  revert mask lo. induction n as [|n IH]; intros mask lo i j a b Hij Ha Hb.
  { destruct mask; done. }
  destruct mask as [|keep mask]; [done|]. simpl in Ha, Hb.
  destruct keep; [|by apply (IH mask (S lo) i j)].
  destruct j as [|j]; [lia|]. simpl in Hb.
  destruct i as [|i].
  - simpl in Ha. injection Ha as <-.
    apply list_elem_of_lookup_2, select_seq_above in Hb. lia.
  - simpl in Ha. apply (IH mask (S lo) i j); [lia | done | done].
Qed.

(** X18: the months of the resampled yield table come in strictly increasing
    order, so no month labels two rows, whatever the order and the gaps of
    the downloaded dates. *)
Theorem resampled_yields_months_increase
    (yields_df : DataFrame Timestamp (option Qc)) :
  increasing (index (resampled_yields yields_df)) /\
  NoDup (index (resampled_yields yields_df)).
Proof.
  assert (Hinc : increasing (index (resampled_yields yields_df))).
  { unfold resampled_yields, dropna, resample_mean. simpl.
    unfold month_bins. destruct (index yields_df) as [|t rest].
    - intros i j a b _ Ha. by destruct (map _ _).
    - apply select_seq_increasing. }
  split; [done|]. apply NoDup_alt. intros i j x Hi Hj.
  destruct (Nat.lt_total i j) as [Hlt|[->|Hlt]]; [|done|].
  - pose proof (Hinc i j x x Hlt Hi Hj). lia.
  - pose proof (Hinc j i x x Hlt Hj Hi). lia.
Qed.

(** X19: a month of the yield table that lies outside the months spanned by
    the dates of the benchmark series stops the alignment of line 48 with a
    [KeyError]. *)
Theorem aligned_sp500_month_out_of_span
    (sp500 : Series Timestamp (option Qc)) (yields_index : list nat)
    (m : nat) :
  m ∈ yields_index -> m ∉ month_bins (map fst sp500) ->
  aligned_sp500 sp500 yields_index = Raise KeyError.
Proof.
  intros Hm Hout. unfold aligned_sp500.
  apply (loc_missing _ _ m); [done|].
  unfold resample_last, keys. rewrite map_map. simpl. by rewrite map_id.
Qed.

Lemma aligned_sp500_month_out_of_span_witness :
  aligned_sp500 daily_closes [1; 2; 3]%nat = Raise KeyError.
Proof.
  apply (aligned_sp500_month_out_of_span daily_closes [1; 2; 3]%nat 3%nat).
  - apply (bool_decide_unpack _). vm_compute. exact I.
  - apply (bool_decide_unpack _). vm_compute. exact I.
Defined.

(** ** The three columns of the table of results *)

(** X20: on a table that prices the three maturities at nonzero values and a
    benchmark series with nonzero closes on the same distinct dates, both
    strategies and the benchmark return, each with one value for every date
    of the price table but the first, which is the index the table of
    results is built on. *)
Theorem strategies_and_benchmark_fit_results_index {I} `{EqDecision I}
    (prices : DataFrame I Qc) (sp500 : Series I Qc) :
  priced prices (keys durations) = true ->
  keys sp500 = index prices -> NoDup (index prices) ->
  Forall (fun tp => tp.2 <> 0) sp500 ->
  exists original adjusted benchmark,
    original_index prices = Ok original /\
    adjusted_index prices = Ok adjusted /\
    sp500_index sp500 (index prices) = Ok benchmark /\
    length original = length (tail (index prices)) /\
    length adjusted = length (tail (index prices)) /\
    keys benchmark = tail (index prices).
Proof.
  intros Hpriced Hkeys Hnd Hnz.
  unfold original_index, adjusted_index.
  rewrite (simulate_refines prices weights_original) by exact Hpriced.
  rewrite (simulate_refines prices weights_adjusted) by exact Hpriced.
  rewrite (sp500_index_spec sp500 (index prices) Hkeys Hnd Hnz).
  do 3 eexists. repeat split.
  - unfold spec_portfolio. rewrite spec_values_length. unfold len.
    destruct (index prices); simpl; lia.
  - unfold spec_portfolio. rewrite spec_values_length. unfold len.
    destruct (index prices); simpl; lia.
  - rewrite <- Hkeys. destruct sp500 as [|[t p] rest]; [done|].
    apply keys_benchmark_of.
Qed.

Lemma strategies_and_benchmark_fit_results_index_witness :
  exists original adjusted benchmark,
    original_index three_month_prices = Ok original /\
    adjusted_index three_month_prices = Ok adjusted /\
    sp500_index three_closes (index three_month_prices) = Ok benchmark /\
    length original = length (tail (index three_month_prices)) /\
    length adjusted = length (tail (index three_month_prices)) /\
    keys benchmark = tail (index three_month_prices).
Proof.
  apply (strategies_and_benchmark_fit_results_index three_month_prices
           three_closes).
  - vm_compute. reflexivity.
  - reflexivity.
  - apply (bool_decide_unpack _). vm_compute. exact I.
  - apply (bool_decide_unpack _). vm_compute. exact I.
Defined.

(** ** The run on binary64 *)

(** X21: on binary64 the loop computes the recurrence of the specification
    with every operation rounded, in the order of the code, on every table
    whose rows list the weighted maturities; a zero price is no exception,
    its inf and nan run through the same operations. *)
Theorem simulate_bond_index_rounded_recurrence {I} (prices : DataFrame I float)
    (weights : dict string float) (transaction_cost : float) :
  Binary64.listed prices (keys weights) = true ->
  exists values,
    Binary64.simulate_bond_index prices weights transaction_cost
    = Ok values /\
    length values = (len prices - 1)%nat /\
    values = Binary64.spec_portfolio (keys weights)
               (Binary64.weight_of weights) transaction_cost
               (Binary64.price_of prices) Binary64.initial_investment
               (len prices).
Proof.
  intros Hlisted. eexists. split; [by apply simulate_refines_binary64|].
  split; [|done]. unfold Binary64.spec_portfolio.
  apply spec_values_length_binary64.
Qed.

Lemma simulate_bond_index_rounded_recurrence_witness :
  exists values,
    Binary64.simulate_bond_index Binary64.zero_then_par [("A", 1%float)]
      Binary64.default_transaction_cost = Ok values /\
    length values = (len Binary64.zero_then_par - 1)%nat /\
    values = Binary64.spec_portfolio (keys [("A", 1%float)])
               (Binary64.weight_of [("A", 1%float)])
               Binary64.default_transaction_cost
               (Binary64.price_of Binary64.zero_then_par)
               Binary64.initial_investment (len Binary64.zero_then_par).
Proof.
  apply (simulate_bond_index_rounded_recurrence Binary64.zero_then_par
           [("A", 1%float)] Binary64.default_transaction_cost).
  vm_compute. reflexivity.
Defined.

(** X22: the cost is deducted from the reported value only: on binary64 the
    units held after any number of passes are the same at every cost rate,
    bit for bit. *)
Theorem holdings_ignore_cost_rate {I} (prices : DataFrame I float)
    (weights : dict string float) (rate rate' : float) (k : nat) :
  Binary64.listed prices (keys weights) = true -> (k < len prices)%nat ->
  exists st st',
    Binary64.run_upto prices weights rate k = Ok st /\
    Binary64.run_upto prices weights rate' k = Ok st' /\
    Binary64.holdings st = Binary64.holdings st'.
Proof.
  intros Hlisted Hk. destruct k as [|k].
  { do 2 eexists. split; [reflexivity|]. split; reflexivity. }
  destruct (run_upto_step_binary64 prices weights rate Hlisted (S k))
    as (_ & st & _ & Hst & _ & Hheld & _); [lia | done |].
  destruct (run_upto_step_binary64 prices weights rate' Hlisted (S k))
    as (_ & st' & _ & Hst' & _ & Hheld' & _); [lia | done |].
  exists st, st'. split; [done|]. split; [done|]. by rewrite Hheld, Hheld'.
Qed.

Lemma holdings_ignore_cost_rate_witness :
  exists st st',
    Binary64.run_upto Binary64.two_month_prices Binary64.half_three_two
      0.001%float 1 = Ok st /\
    Binary64.run_upto Binary64.two_month_prices Binary64.half_three_two
      0.25%float 1 = Ok st' /\
    Binary64.holdings st = Binary64.holdings st'.
Proof.
  apply (holdings_ignore_cost_rate Binary64.two_month_prices
           Binary64.half_three_two 0.001%float 0.25%float 1).
  - vm_compute. reflexivity.
  - vm_compute. lia.
Defined.

(** X23: at a yield of zero [bond_price] returns par, exactly 100.0, for
    every duration the exponent conversion accepts and whatever the
    library's [pow] does: the base 1.0 is answered without it. *)
Theorem bond_price_par_at_zero_yield (libm_pow : float -> float -> float)
    (d : Z) :
  (Z.abs d < 2 ^ 1024 - 2 ^ 970)%Z ->
  Binary64.bond_price libm_pow 0%float d = Ok 100%float.
Proof.
  intros Hd. unfold Binary64.bond_price.
  change (Binary64.truediv 0%float 100%float) with (Ok 0%float).
  cbn [bind]. change (1 + 0)%float with 1%float.
  unfold Binary64.float_pow, Binary64.float_of_int.
  rewrite decide_True by done. cbn [bind].
  destruct (decide (d = 0)%Z); [reflexivity|].
  change (is_nan 1%float) with false.
  change (is_infinity 1%float) with false.
  change (1 =? 0)%float with false.
  change (1 <? 0)%float with false.
  change (abs 1 =? 1)%float with true.
  reflexivity.
Qed.

Lemma bond_price_par_at_zero_yield_witness :
  Binary64.bond_price Binary64.correctly_rounded_pow 0%float 10
  = Ok 100%float.
Proof.
  apply (bond_price_par_at_zero_yield Binary64.correctly_rounded_pow 10%Z).
  vm_compute. reflexivity.
Defined.
